(** * LFPy: simulation driver and geometry extractor

    A shallow embedding of [LFPy/run_simulation.py]:
    [_run_simulation], [_run_simulation_with_electrode] and
    [_collect_geometry_neuron].

    Conventions of the embedding.
    - Times ([h.t], [h.dt], [tstartms], [tstopms], [timeres_NEURON], the
      tolerance) are exact rationals [Q]; Python's float rounding is not
      represented.
    - Signal values (currents, areas, coordinates, potentials) live in an
      abstract type [V] with uninterpreted operations ([FloatOps]): no
      theorem uses an algebraic law on them.
    - NEURON ([neuron.h], [CVode], the sections of [cell.allseclist]) and
      the electrode's [calc_lfp] are collaborators whose code is not part
      of the repository: they are parameters ([Engine], [Probe]).
    - Python exceptions are values of [exn]; a function that can raise
      returns an [outcome]. *)

From Stdlib Require Import QArith Qround ZArith Lia List Bool String Ascii.
From Stdlib Require Import DecimalString DecimalNat DecimalFacts.
From stdpp Require Import gmap strings list fin_maps.

Set Default Proof Using "Type".
Open Scope Z_scope.
Open Scope nat_scope.

(** ** Exceptions and outcomes *)

Inductive exn : Type :=
  | AttributeError
  | IndexError
  | ValueError
  | ZeroDivisionError
  | NameError
  | KeyError
  | RuntimeError
  | LoopBound.   (* not a Python exception: the bound on loop iterations given
                    to the model was reached *)

Inductive outcome (A : Type) : Type :=
  | Ok (a : A)
  | Raise (e : exn).
Arguments Ok {A} a.
Arguments Raise {A} e.

Definition obind {A B} (m : outcome A) (f : A -> outcome B) : outcome B :=
  match m with
  | Ok a => f a
  | Raise e => Raise e
  end.

Declare Scope outcome_scope.
Delimit Scope outcome_scope with outcome.
Notation "x <~ m ;; k" := (obind m (fun x => k))
  (at level 100, m at next level, right associativity) : outcome_scope.

(** ** Float operations

    The float arithmetic and the numpy routines used by the source, left
    uninterpreted. *)

Class FloatOps (V : Type) : Type := {
  vzero : V;                       (* 0. *)
  vone : V;                        (* 1. *)
  c1e_2 : V;                       (* the literal 1E-2 *)
  vof_nat : nat -> V;              (* int -> float coercion *)
  vadd : V -> V -> V;
  vsub : V -> V -> V;
  vmul : V -> V -> V;
  vdiv : V -> V -> V;              (* numpy float division (no exception) *)
  vround6 : V -> V;                (* ndarray.round(decimals=6) *)
  vinterp : V -> list V -> list V -> V   (* np.interp at one abscissa *)
}.

(** ** Array helpers *)

Section Arrays.
Context {A : Type}.

(** [a[i] = x] on a 1-D array: IndexError out of range. *)
Definition setitem (a : list A) (i : nat) (x : A) : outcome (list A) :=
  if i <? length a then Ok (<[i := x]> a) else Raise IndexError.

(** [a[c:c+n] = v] where [v] has [n] entries.  The slice is clipped to the
    array; numpy broadcasts [v] onto it, which works when the lengths
    agree or when [v] has one entry, and is a ValueError otherwise. *)
Definition setslice (a : list A) (c : nat) (v : list A) : outcome (list A) :=
  let n := length v in
  let lo := Nat.min c (length a) in
  let hi := Nat.min (c + n) (length a) in
  let m := hi - lo in
  if m =? n then Ok (take lo a ++ v ++ drop hi a)
  else match v with
       | [x] => Ok (take lo a ++ replicate m x ++ drop hi a)
       | _ => Raise ValueError
       end.
End Arrays.

(** ** Python floats as rationals, and strings *)

(** [a <= b] and [a < b] on floats. *)
Definition Qleb (a b : Q) : bool := Qle_bool a b.
Definition Qltb (a b : Q) : bool := negb (Qle_bool b a).

(** [a / b]: Python raises on a zero divisor. *)
Definition pydiv (a b : Q) : outcome Q :=
  if Qeq_bool b 0 then Raise ZeroDivisionError else Ok (a / b)%Q.

(** [int(x)]: truncation toward zero. *)
Definition py_int (x : Q) : Z := Z.quot (Qnum x) (Zpos (Qden x)).

(** [math.floor(x)], the count the specification speaks of. *)
Definition py_floor (x : Q) : Z := Qfloor x.

(** [divmod(c, d)[1] == 0] for a nonzero [d]: [c] is a whole multiple of
    [d]. *)
Definition is_multiple (c d : Q) : bool :=
  (Zpos (Qden (Qred (c / d))) =? 1)%Z.

(** [s.split('.')[-1]]: what follows the last dot, the whole string when
    there is none. *)
Fixpoint has_dot (s : string) : bool :=
  match s with
  | EmptyString => false
  | String c r => if Ascii.eqb c "."%char then true else has_dot r
  end.

Fixpoint after_last_dot (s : string) : string :=
  match s with
  | EmptyString => EmptyString
  | String c r =>
      if has_dot r then after_last_dot r
      else if Ascii.eqb c "."%char then r else s
  end.

(** [if file_name.split('.')[-1] != 'h5': file_name += '.h5'] *)
Definition normalize_file_name (file_name : string) : string :=
  if String.eqb (after_last_dot file_name) "h5" then file_name
  else (file_name ++ ".h5")%string.

(** ['{:03d}'.format(i)]: decimal, zero-padded to three digits. *)
Definition pad3 (s : string) : string :=
  match String.length s with
  | 0 => ("000" ++ s)%string
  | 1 => ("00" ++ s)%string
  | 2 => ("0" ++ s)%string
  | _ => s
  end.

Definition format03 (i : nat) : string :=
  pad3 (NilZero.string_of_uint (Nat.to_uint i)).

(** ['electrode{:03d}'.format(i)] *)
Definition dataset_name (i : nat) : string :=
  ("electrode" ++ format03 i)%string.

(** ** numpy arrays

    A 2-D array is its column count and its rows; a cell is [None] while
    it holds what [np.empty] left there, [Some v] once a value is stored.
    Operations on an uninitialised cell give an uninitialised cell. *)

Record ndarray (V : Type) : Type := mkArr {
  ncols : nat;
  rowsdata : list (list (option V))
}.
Arguments mkArr {V} _ _.
Arguments ncols {V} _.
Arguments rowsdata {V} _.

Section Numpy.
Context {V : Type} `{FloatOps V}.

(** [a.shape[0]] *)
Definition nrows (a : ndarray V) : nat := length (rowsdata a).

(** [np.empty((r, c))]: a negative dimension is a ValueError. *)
Definition np_empty (r : nat) (c : Z) : outcome (ndarray V) :=
  if (c <? 0)%Z then Raise ValueError
  else Ok (mkArr (Z.to_nat c) (replicate r (replicate (Z.to_nat c) None))).

(** [np.empty(n)], one-dimensional. *)
Definition np_empty1 (n : nat) : list (option V) := replicate n None.

(** [np.eye(n)] *)
Definition np_eye (n : nat) : ndarray V :=
  mkArr n (map (fun i =>
                  map (fun j => Some (if i =? j then vone else vzero)) (seq 0 n))
             (seq 0 n)).

Definition lift2 (f : V -> V -> V) (a b : option V) : option V :=
  match a, b with
  | Some x, Some y => Some (f x y)
  | _, _ => None
  end.

(** The inner product of two 1-D arrays of equal length, summed in the
    order [np.dot] sums them (left to right here). *)
Definition dot1 (row v : list (option V)) : option V :=
  foldl (lift2 vadd) (Some vzero) (zip_with (lift2 vmul) row v).

(** [np.dot(coeffs, imem)] for a 2-D [coeffs] and a 1-D [imem]: the shapes
    must be aligned. *)
Definition np_dot (coeffs : ndarray V) (v : list (option V))
  : outcome (list (option V)) :=
  if ncols coeffs =? length v
  then Ok (map (fun row => dot1 row v) (rowsdata coeffs))
  else Raise ValueError.

(** [a[:, k] = v]: IndexError when the column is out of range, ValueError
    when [v] does not have one entry per row. *)
Definition setcol (a : ndarray V) (k : nat) (v : list (option V))
  : outcome (ndarray V) :=
  if negb (k <? ncols a) then Raise IndexError
  else if negb (length v =? nrows a) then Raise ValueError
  else Ok (mkArr (ncols a) (zip_with (fun row x => <[k := x]> row) (rowsdata a) v)).

(** [a += b] for arrays of the same shape (numpy would also broadcast a
    smaller [b]; the driver only adds result series of the electrode's
    own shape, anything else is reported as the ValueError numpy gives
    for shapes that do not match). *)
Definition iadd (a b : ndarray V) : outcome (ndarray V) :=
  if (ncols a =? ncols b) && (nrows a =? nrows b)
  then Ok (mkArr (ncols a)
             (zip_with (zip_with (lift2 vadd)) (rowsdata a) (rowsdata b)))
  else Raise ValueError.

(** [imem *= area] on 1-D arrays: elementwise, a one-entry [area] is
    broadcast, other length mismatches are a ValueError. *)
Definition imul (v : list (option V)) (a : list V) : outcome (list (option V)) :=
  if length a =? length v
  then Ok (zip_with (fun x y => lift2 vmul x (Some y)) v a)
  else match a with
       | [y] => Ok (map (fun x => lift2 vmul x (Some y)) v)
       | _ => Raise ValueError
       end.
End Numpy.

Declare Scope run_scope.
Delimit Scope run_scope with run.

(** ** The cell and its sections *)

Section Model.
Context {V : Type} `{FloatOps V}.

(** A segment as NEURON exposes it to the geometry extractor. *)
Record Segment : Type := mkSegment {
  seg_x : V;          (* seg.x *)
  seg_diam : V;       (* seg.diam *)
  seg_area : V        (* neuron.h.area(seg.x) *)
}.

(** A section: its 3-D trace ([n3d] points, read with [arc3d], [x3d],
    [y3d], [z3d]), its length and its segments.  [sec.nseg] is the number
    of segments the iteration [for seg in sec] yields. *)
Record Sec : Type := mkSec {
  n3d : nat;
  arc3d : nat -> V;
  x3d : nat -> V;
  y3d : nat -> V;
  z3d : nat -> V;
  sec_L : V;
  segs : list Segment
}.

Definition nseg (sec : Sec) : nat := length (segs sec).

Record Cell : Type := mkCell {
  verbose : bool;
  totnsegs : nat;
  timeres_python : Q;
  timeres_NEURON : Q;
  v_init : V;
  tstartms : Q;
  tstopms : Q;
  allseclist : list Sec;
  tvec : option (list Q);
  imem : option (ndarray V);
  xstart : option (list V);
  ystart : option (list V);
  zstart : option (list V);
  xend : option (list V);
  yend : option (list V);
  zend : option (list V);
  area : option (list V);
  diam : option (list V);
  length_ : option (list V);
  dotprodresults : option (list (ndarray V))
}.

(** ** Geometry extractor *)

(** The nine vectors and the running index of [_collect_geometry_neuron]. *)
Record GeomVecs : Type := mkGeomVecs {
  areavec : list V;
  diamvec : list V;
  lengthvec : list V;
  xstartvec : list V;
  xendvec : list V;
  ystartvec : list V;
  yendvec : list V;
  zstartvec : list V;
  zendvec : list V;
  counter : nat
}.

Definition geom_init (n : nat) : GeomVecs :=
  let z := replicate n vzero in
  mkGeomVecs z z z z z z z z z 0.

(** The body of the inner loop [for i, seg in enumerate(sec)] that fills
    area, diameter and length and advances [counter]. *)
Definition fill_segment (sec : Sec) (g : GeomVecs) (seg : Segment)
  : outcome GeomVecs :=
  (a <~ setitem (areavec g) (counter g) (seg_area seg) ;;
   d <~ setitem (diamvec g) (counter g) (seg_diam seg) ;;
   l <~ setitem (lengthvec g) (counter g)
          (vdiv (sec_L sec) (vof_nat (nseg sec))) ;;
   Ok (mkGeomVecs a d l (xstartvec g) (xendvec g) (ystartvec g) (yendvec g)
         (zstartvec g) (zendvec g) (S (counter g))))%outcome.

Fixpoint fill_segments (sec : Sec) (g : GeomVecs) (l : list Segment)
  : outcome GeomVecs :=
  match l with
  | [] => Ok g
  | seg :: l' => (g' <~ fill_segment sec g seg ;; fill_segments sec g' l')%outcome
  end.

(** One iteration of [for sec in cell.allseclist]. *)
Definition collect_section (g : GeomVecs) (sec : Sec) : outcome GeomVecs :=
  (* gsen2 = 1./2/nseg *)
  if nseg sec =? 0 then Raise ZeroDivisionError else
  let gsen2 := vdiv (vdiv vone (vof_nat 2)) (vof_nat (nseg sec)) in
  if 0 <? n3d sec then
    let idx := seq 0 (n3d sec) in
    (* L /= sec.L *)
    let L := map (fun i => vdiv (arc3d sec i) (sec_L sec)) idx in
    let x := map (x3d sec) idx in
    let y := map (y3d sec) idx in
    let z := map (z3d sec) idx in
    let segx := map seg_x (segs sec) in
    let segx0 := map (fun s => vround6 (vsub s gsen2)) segx in
    let segx1 := map (fun s => vround6 (vadd s gsen2)) segx in
    let interp (at_ : list V) (fp : list V) := map (fun s => vinterp s L fp) at_ in
    let c := counter g in
    (xs <~ setslice (xstartvec g) c (interp segx0 x) ;;
     xe <~ setslice (xendvec g) c (interp segx1 x) ;;
     ys <~ setslice (ystartvec g) c (interp segx0 y) ;;
     ye <~ setslice (yendvec g) c (interp segx1 y) ;;
     zs <~ setslice (zstartvec g) c (interp segx0 z) ;;
     ze <~ setslice (zendvec g) c (interp segx1 z) ;;
     fill_segments sec
       (mkGeomVecs (areavec g) (diamvec g) (lengthvec g) xs xe ys ye zs ze c)
       (segs sec))%outcome
  else Ok g.

Fixpoint collect_sections (g : GeomVecs) (l : list Sec) : outcome GeomVecs :=
  match l with
  | [] => Ok g
  | sec :: l' => (g' <~ collect_section g sec ;; collect_sections g' l')%outcome
  end.

(** [_collect_geometry_neuron(cell)]: the cell with its nine geometry
    attributes set, or the exception raised. *)
Definition _collect_geometry_neuron (cell : Cell) : outcome Cell :=
  (g <~ collect_sections (geom_init (totnsegs cell)) (allseclist cell) ;;
   Ok (mkCell (verbose cell) (totnsegs cell) (timeres_python cell)
         (timeres_NEURON cell) (v_init cell) (tstartms cell) (tstopms cell)
         (allseclist cell) (tvec cell) (imem cell)
         (Some (xstartvec g)) (Some (ystartvec g)) (Some (zstartvec g))
         (Some (xendvec g)) (Some (yendvec g)) (Some (zendvec g))
         (Some (areavec g)) (Some (diamvec g)) (Some (lengthvec g))
         (dotprodresults cell)))%outcome.

(** ** Electrodes, the object store and the engine *)

Context {D Conf : Type}.

(** An electrode object.  [LFP] and [CellLFP] are attributes that may be
    absent; when present they refer to an array, respectively to a list
    of arrays, in the store.  [el_conf] is the collaborator's own
    state (contact positions and the like). *)
Record Electrode : Type := mkElectrode {
  LFP : option nat;
  CellLFP : option nat;
  perCellLFP : bool;
  electrodecoeff : option (ndarray V);
  el_conf : Conf
}.

(** The store: electrode objects, numpy arrays and Python lists of
    arrays, by reference. *)
Record Heap : Type := mkHeap {
  els : gmap nat Electrode;
  arrays : gmap nat (ndarray V);
  lists : gmap nat (list nat)
}.

(** [neuron.h] with its [CVode] integrator: step, time, the integrator
    switches, and the engine's dynamic state. *)
Record Neuron : Type := mkNeuron {
  h_dt : Q;
  h_t : Q;
  cvode_active : bool;
  cvode_atol : Q;
  dyn : D
}.

(** The primitives of the compartmental engine.  Each reads the whole
    engine and yields the new dynamic state (and the new time where it
    moves time). *)
Class Engine : Type := {
  e_finitialize : V -> Neuron -> Q * D;
  e_re_init : Neuron -> D;
  e_fcurrent : Neuron -> D;
  e_frecord_init : Neuron -> D;
  e_loadspikes : Neuron -> D;
  e_fadvance : Neuron -> Q * D;
  (* seg.i_membrane of segment [g] of section [s] of cell.allseclist *)
  e_i_membrane : Neuron -> nat -> nat -> V
}.

(** The electrode collaborator: [el.calc_lfp(cell=cell)] for the electrode
    at a reference, acting on the cell and the store. *)
Class Probe : Type := {
  calc_lfp : nat -> Cell -> Heap -> outcome (Cell * Heap)
}.

Context `{Engine} `{Probe}.

(** One output container of the persistent store. *)
Record H5File : Type := mkH5File {
  datasets : list (string * ndarray V);
  h5_open : bool
}.

(** The state the driver acts on.  [bufs] holds the arrays of the local
    list [electrodesLFP]: they are created before the loop, written in
    place at every step, and referenced by nothing else until the
    finalization hands them out. *)
Record World : Type := mkWorld {
  cell : Cell;
  nrn : Neuron;
  heap : Heap;
  fs : gmap string H5File;
  bufs : list (ndarray V)
}.

(** What the driver prints. *)
Inductive Msg : Type :=
  | MsgNoH5py                 (* 'h5py not found, LFP to file not possible' *)
  | MsgPrecalc                (* 'precalculating geometry - LFP mapping' *)
  | MsgProgress (t : Q).      (* 't = ..., realtime factor: ...' *)

(** ** The driver's monad: state, output and exceptions *)

Record Res (A : Type) : Type := mkRes {
  r_val : outcome A;
  r_world : World;
  r_out : list Msg
}.
Arguments mkRes {A} _ _ _.
Arguments r_val {A} _.
Arguments r_world {A} _.
Arguments r_out {A} _.

Definition M (A : Type) : Type := World -> Res A.

Definition ret {A} (a : A) : M A := fun w => mkRes (Ok a) w [].

Definition bind {A B} (m : M A) (f : A -> M B) : M B :=
  fun w =>
    let r := m w in
    match r_val r with
    | Ok a => let r' := f a (r_world r) in
              mkRes (r_val r') (r_world r') (r_out r ++ r_out r')
    | Raise e => mkRes (Raise e) (r_world r) (r_out r)
    end.

Definition raise {A} (e : exn) : M A := fun w => mkRes (Raise e) w [].

Definition lift {A} (o : outcome A) : M A :=
  fun w => mkRes o w [].

Definition print (m : Msg) : M unit := fun w => mkRes (Ok tt) w [m].

(** [try: body except: pass] *)
Definition try_pass (body : M unit) : M unit :=
  fun w =>
    let r := body w in
    mkRes (Ok tt) (r_world r) (r_out r).

Definition when (b : bool) (m : M unit) : M unit :=
  if b then m else ret tt.

Notation "x <- m ;; k" := (bind m (fun x => k))
  (at level 100, m at next level, right associativity) : run_scope.
Notation "m ;;; k" := (bind m (fun _ => k))
  (at level 100, right associativity) : run_scope.
Local Open Scope run_scope.

Fixpoint foldM {A S} (f : S -> A -> M S) (st : S) (l : list A) : M S :=
  match l with
  | [] => ret st
  | a :: l' => st' <- f st a ;; foldM f st' l'
  end.

(** *** The components of the state *)

Definition with_cell (w : World) (c : Cell) : World :=
  mkWorld c (nrn w) (heap w) (fs w) (bufs w).
Definition with_nrn (w : World) (n : Neuron) : World :=
  mkWorld (cell w) n (heap w) (fs w) (bufs w).
Definition with_heap (w : World) (h : Heap) : World :=
  mkWorld (cell w) (nrn w) h (fs w) (bufs w).
Definition with_fs (w : World) (f : gmap string H5File) : World :=
  mkWorld (cell w) (nrn w) (heap w) f (bufs w).
Definition with_bufs (w : World) (b : list (ndarray V)) : World :=
  mkWorld (cell w) (nrn w) (heap w) (fs w) b.

Definition get_cell : M Cell := fun w => mkRes (Ok (cell w)) w [].
Definition set_cell (c : Cell) : M unit :=
  fun w => mkRes (Ok tt) (with_cell w c) [].
Definition get_nrn : M Neuron := fun w => mkRes (Ok (nrn w)) w [].
Definition set_nrn (n : Neuron) : M unit :=
  fun w => mkRes (Ok tt) (with_nrn w n) [].
Definition get_heap : M Heap := fun w => mkRes (Ok (heap w)) w [].
Definition set_heap (h : Heap) : M unit :=
  fun w => mkRes (Ok tt) (with_heap w h) [].
Definition get_fs : M (gmap string H5File) := fun w => mkRes (Ok (fs w)) w [].
Definition set_fs (f : gmap string H5File) : M unit :=
  fun w => mkRes (Ok tt) (with_fs w f) [].
Definition get_bufs : M (list (ndarray V)) := fun w => mkRes (Ok (bufs w)) w [].
Definition set_bufs (b : list (ndarray V)) : M unit :=
  fun w => mkRes (Ok tt) (with_bufs w b) [].

(** *** Attribute access *)

Definition cell_set_tvec (c : Cell) (t : option (list Q)) : Cell :=
  mkCell (verbose c) (totnsegs c) (timeres_python c) (timeres_NEURON c)
    (v_init c) (tstartms c) (tstopms c) (allseclist c) t (imem c)
    (xstart c) (ystart c) (zstart c) (xend c) (yend c) (zend c)
    (area c) (diam c) (length_ c) (dotprodresults c).

Definition cell_set_imem (c : Cell) (a : option (ndarray V)) : Cell :=
  mkCell (verbose c) (totnsegs c) (timeres_python c) (timeres_NEURON c)
    (v_init c) (tstartms c) (tstopms c) (allseclist c) (tvec c) a
    (xstart c) (ystart c) (zstart c) (xend c) (yend c) (zend c)
    (area c) (diam c) (length_ c) (dotprodresults c).

Definition cell_set_dotprodresults (c : Cell) (r : option (list (ndarray V)))
  : Cell :=
  mkCell (verbose c) (totnsegs c) (timeres_python c) (timeres_NEURON c)
    (v_init c) (tstartms c) (tstopms c) (allseclist c) (tvec c) (imem c)
    (xstart c) (ystart c) (zstart c) (xend c) (yend c) (zend c)
    (area c) (diam c) (length_ c) r.

Definition el_set_LFP (el : Electrode) (l : option nat) : Electrode :=
  mkElectrode l (CellLFP el) (perCellLFP el) (electrodecoeff el) (el_conf el).
Definition el_set_CellLFP (el : Electrode) (l : option nat) : Electrode :=
  mkElectrode (LFP el) l (perCellLFP el) (electrodecoeff el) (el_conf el).
Definition el_set_electrodecoeff (el : Electrode) (a : option (ndarray V))
  : Electrode :=
  mkElectrode (LFP el) (CellLFP el) (perCellLFP el) a (el_conf el).

Definition heap_set_el (h : Heap) (e : nat) (el : Electrode) : Heap :=
  mkHeap (<[e := el]> (els h)) (arrays h) (lists h).
Definition heap_set_array (h : Heap) (l : nat) (a : ndarray V) : Heap :=
  mkHeap (els h) (<[l := a]> (arrays h)) (lists h).
Definition heap_set_list (h : Heap) (l : nat) (x : list nat) : Heap :=
  mkHeap (els h) (arrays h) (<[l := x]> (lists h)).

(** The electrode object at a reference; a reference to nothing has no
    attribute at all. *)
Definition get_el (e : nat) : M Electrode :=
  h <- get_heap ;;
  match els h !! e with
  | Some el => ret el
  | None => raise AttributeError
  end.

Definition put_el (e : nat) (el : Electrode) : M unit :=
  h <- get_heap ;; set_heap (heap_set_el h e el).

(** [hasattr(el, 'LFP')] and [hasattr(el, 'CellLFP')], with the value. *)
Definition attr_LFP (e : nat) : M (option nat) :=
  h <- get_heap ;;
  ret (match els h !! e with Some el => LFP el | None => None end).
Definition attr_CellLFP (e : nat) : M (option nat) :=
  h <- get_heap ;;
  ret (match els h !! e with Some el => CellLFP el | None => None end).

(** [el.LFP = x] *)
Definition set_LFP (e : nat) (x : nat) : M unit :=
  el <- get_el e ;; put_el e (el_set_LFP el (Some x)).

(** [del el.LFP] *)
Definition del_LFP (e : nat) : M unit :=
  el <- get_el e ;;
  match LFP el with
  | Some _ => put_el e (el_set_LFP el None)
  | None => raise AttributeError
  end.

(** [el.CellLFP = x] *)
Definition set_CellLFP (e : nat) (x : nat) : M unit :=
  el <- get_el e ;; put_el e (el_set_CellLFP el (Some x)).

(** [del el.CellLFP] *)
Definition del_CellLFP (e : nat) : M unit :=
  el <- get_el e ;;
  match CellLFP el with
  | Some _ => put_el e (el_set_CellLFP el None)
  | None => raise AttributeError
  end.

(** The array an attribute refers to. *)
Definition get_array (l : nat) : M (ndarray V) :=
  h <- get_heap ;;
  match arrays h !! l with
  | Some a => ret a
  | None => raise AttributeError
  end.

Definition put_array (l : nat) (a : ndarray V) : M unit :=
  h <- get_heap ;; set_heap (heap_set_array h l a).

(** A new array object in the store. *)
Definition alloc_array (a : ndarray V) : M nat :=
  h <- get_heap ;;
  let l := fresh (dom (arrays h)) in
  set_heap (heap_set_array h l a) ;;;
  ret l.

(** A new list object in the store. *)
Definition alloc_list (x : list nat) : M nat :=
  h <- get_heap ;;
  let l := fresh (dom (lists h)) in
  set_heap (heap_set_list h l x) ;;;
  ret l.

(** [x.append(r)] for the list object at [l]. *)
Definition list_append (l : nat) (r : nat) : M unit :=
  h <- get_heap ;;
  match lists h !! l with
  | Some x => set_heap (heap_set_list h l (x ++ [r]))
  | None => raise AttributeError
  end.

(** [el.calc_lfp(cell=cell)] *)
Definition call_calc_lfp (e : nat) : M unit :=
  h <- get_heap ;;
  c <- get_cell ;;
  match els h !! e with
  | None => raise AttributeError
  | Some _ =>
      match calc_lfp e c h with
      | Ok (c', h') => set_cell c' ;;; set_heap h'
      | Raise x => raise x
      end
  end.

(** ** [_run_simulation_with_electrode]: the coefficient-matrix probe *)

(** The locals the loop [for el in electrodes] carries from one electrode
    to the next.  [LFPcopy] and [CellLFP_saved] are [None] while the
    Python variable is unbound. *)
Record ProbeLocals : Type := mkProbeLocals {
  LFPcopy : option nat;
  restoreLFP : bool;
  CellLFP_saved : option nat;
  restoreCellLFP : bool;
  coeffs_acc : list (ndarray V)
}.

(** A bound local, or NameError. *)
Definition local {A} (x : option A) : M A :=
  match x with
  | Some a => ret a
  | None => raise NameError
  end.

(** One iteration of [for el in electrodes]. *)
Definition probe_electrode (st : ProbeLocals) (e : nat) : M ProbeLocals :=
  (* if hasattr(el, 'LFP'): LFPcopy = el.LFP; del el.LFP; restoreLFP = True *)
  has_LFP <- attr_LFP e ;;
  st1 <- match has_LFP with
         | Some l =>
             del_LFP e ;;;
             ret (mkProbeLocals (Some l) true (CellLFP_saved st)
                    (restoreCellLFP st) (coeffs_acc st))
         | None => ret st
         end ;;
  (* if hasattr(el, 'CellLFP'): CellLFP = el.CellLFP; restoreCellLFP = True *)
  has_CellLFP <- attr_CellLFP e ;;
  let st2 := match has_CellLFP with
             | Some c => mkProbeLocals (LFPcopy st1) (restoreLFP st1) (Some c)
                           true (coeffs_acc st1)
             | None => st1
             end in
  call_calc_lfp e ;;;
  (* dotprodcoeffs.append(el.LFP.copy()) *)
  new_LFP <- attr_LFP e ;;
  a <- match new_LFP with
       | Some l => get_array l
       | None => raise AttributeError
       end ;;
  let st3 := mkProbeLocals (LFPcopy st2) (restoreLFP st2) (CellLFP_saved st2)
               (restoreCellLFP st2) (coeffs_acc st2 ++ [a]) in
  (if restoreLFP st3
   then del_LFP e ;;; x <- local (LFPcopy st3) ;; set_LFP e x
   else del_LFP e) ;;;
  (if restoreCellLFP st3
   then x <- local (CellLFP_saved st3) ;; set_CellLFP e x
   else has_CellLFP' <- attr_CellLFP e ;;
        match has_CellLFP' with
        | Some _ => del_CellLFP e
        | None => ret tt
        end) ;;;
  ret st3.

(** [np.arange(n) * timeres_python] *)
Definition arange_times (n : nat) (step : Q) : list Q :=
  map (fun i => (inject_Z (Z.of_nat i) * step)%Q) (seq 0 n).

(** The block under [if electrode is not None]: lines 111-149.  Returns
    [dotprodcoeffs] with one coefficient matrix appended per electrode. *)
Definition probe_phase (electrodes : list nat) (dotprodcoeffs : list (ndarray V))
  : M (list (ndarray V)) :=
  c <- get_cell ;;
  (* cellTvec = cell.tvec *)
  cellTvec <- match tvec c with
              | Some t => ret t
              | None => raise AttributeError
              end ;;
  (* try: cellImem = cell.imem.copy() except: pass *)
  let cellImem := imem c in
  (* cell.imem = np.eye(cell.totnsegs)
     cell.tvec = np.arange(cell.totnsegs) * cell.timeres_python *)
  set_cell (cell_set_tvec (cell_set_imem c (Some (np_eye (totnsegs c))))
              (Some (arange_times (totnsegs c) (timeres_python c)))) ;;;
  st <- foldM probe_electrode
          (mkProbeLocals None false None false dotprodcoeffs) electrodes ;;
  (* cell.tvec = cellTvec *)
  c <- get_cell ;;
  set_cell (cell_set_tvec c (Some cellTvec)) ;;;
  (* try: cell.imem = cellImem except: del cell.imem *)
  c <- get_cell ;;
  match cellImem with
  | Some a => set_cell (cell_set_imem c (Some a))
  | None =>
      match imem c with
      | Some _ => set_cell (cell_set_imem c None)
      | None => raise AttributeError
      end
  end ;;;
  ret (coeffs_acc st).

(** ** Engine initialisation *)

Definition nrn_set_dyn (n : Neuron) (d : D) : Neuron :=
  mkNeuron (h_dt n) (h_t n) (cvode_active n) (cvode_atol n) d.
Definition nrn_set_t (n : Neuron) (t : Q) : Neuron :=
  mkNeuron (h_dt n) t (cvode_active n) (cvode_atol n) (dyn n).
Definition nrn_set_t_dyn (n : Neuron) (td : Q * D) : Neuron :=
  mkNeuron (h_dt n) (fst td) (cvode_active n) (cvode_atol n) (snd td).

(** Lines 24-48 and 155-181 share everything but the test that switches
    the integrator: [adaptive] is that test's value. *)
Definition init_engine (c : Cell) (adaptive : bool) (atol : Q) (n : Neuron)
  : Neuron :=
  (* neuron.h.dt = cell.timeres_NEURON *)
  let n := mkNeuron (timeres_NEURON c) (h_t n) (cvode_active n) (cvode_atol n)
             (dyn n) in
  (* cvode.active(1); cvode.atol(atol)  /  cvode.active(0) *)
  let n := if adaptive
           then mkNeuron (h_dt n) (h_t n) true atol (dyn n)
           else mkNeuron (h_dt n) (h_t n) false (cvode_atol n) (dyn n) in
  (* neuron.h.finitialize(cell.v_init) *)
  let n := nrn_set_t_dyn n (e_finitialize (v_init c) n) in
  (* if cvode.active(): cvode.re_init() else: neuron.h.fcurrent() *)
  let n := if cvode_active n
           then nrn_set_dyn n (e_re_init n)
           else nrn_set_dyn n (e_fcurrent n) in
  (* neuron.h.frecord_init() *)
  let n := nrn_set_dyn n (e_frecord_init n) in
  (* neuron.h.t = cell.tstartms *)
  let n := nrn_set_t n (tstartms c) in
  (* cell._loadspikes() *)
  nrn_set_dyn n (e_loadspikes n).

(** The test of line 161. *)
Definition adaptive_with_electrode (c : Cell) (variable_dt : bool) : bool :=
  Qleb (timeres_NEURON c) (1 # 100000000).

(** The test of line 29. *)
Definition adaptive_plain (c : Cell) (variable_dt : bool) : bool :=
  variable_dt.

(** [interval], lines 54-57 and 188-191. *)
Definition progress_interval (c : Cell) : outcome Q :=
  (q <~ pydiv 1 (timeres_NEURON c) ;;
   Ok (if Qltb 10000 (tstopms c) then q * 1000 else q * 100)%Q)%outcome.

(** The progress report after an advance: lines 61-68 and 238-245.
    Returns the new [ti]. *)
Definition report_progress (counter' : nat) (interval ti : Q) : M Q :=
  if is_multiple (inject_Z (Z.of_nat counter')) interval
  then c <- get_cell ;;
       n <- get_nrn ;;
       when (verbose c) (print (MsgProgress (h_t n))) ;;;
       ret (h_t n)
  else ret ti.

(** [neuron.h.fadvance()] *)
Definition fadvance : M unit :=
  n <- get_nrn ;; set_nrn (nrn_set_t_dyn n (e_fadvance n)).

(** ** [_run_simulation] *)

Fixpoint plain_loop (fuel : nat) (interval : Q) (counter' : nat) (ti : Q)
  : M unit :=
  c <- get_cell ;;
  n <- get_nrn ;;
  if Qltb (h_t n) (tstopms c) then
    match fuel with
    | 0 => raise LoopBound
    | S fuel' =>
        fadvance ;;;
        ti' <- report_progress (S counter') interval ti ;;
        plain_loop fuel' interval (S counter') ti'
    end
  else ret tt.

Definition _run_simulation (fuel : nat) (variable_dt : bool) (atol : Q)
  : M unit :=
  c <- get_cell ;;
  n <- get_nrn ;;
  set_nrn (init_engine c (adaptive_plain c variable_dt) atol n) ;;;
  n <- get_nrn ;;
  interval <- lift (progress_interval c) ;;
  plain_loop fuel interval 0 (h_t n).

(** ** [_run_simulation_with_electrode]: sampling and the sinks *)

(** The (section, segment) pairs in the order of
    [for sec in cell.allseclist: for seg in sec]. *)
Definition seg_index (l : list Sec) : list (nat * nat) :=
  concat (imap (fun s sec => map (pair s) (seq 0 (nseg sec))) l).

(** [i = 0; for sec ...: for seg ...: imem[i] = seg.i_membrane; i += 1] *)
Fixpoint read_imem (n : Neuron) (idx : list (nat * nat)) (i : nat)
    (buf : list (option V)) : outcome (list (option V)) :=
  match idx with
  | [] => Ok buf
  | (s, g) :: idx' =>
      (buf' <~ setitem buf i (Some (e_i_membrane n s g)) ;;
       read_imem n idx' (S i) buf')%outcome
  end.

(** [area = cell.area * 1E-2] *)
Definition scaled_area (a : list V) : list V :=
  map (fun x => vmul x c1e_2) a.

(** Lines 219-225 (and 249-255): the current sample of one step, read into
    the reused buffer [imem] and converted with [imem *= area]. *)
Definition sample_imem (n : Neuron) (c : Cell) (area' : list V)
    (buf : list (option V)) : outcome (list (option V)) :=
  (buf' <~ read_imem n (seg_index (allseclist c)) 0 buf ;;
   imul buf' area')%outcome.

(** Lines 227-229: [for j, coeffs in enumerate(dotprodcoeffs):
    electrodesLFP[j][:, tstep] = np.dot(coeffs, imem)]. *)
Fixpoint deposit_memory (j : nat) (coeffs : list (ndarray V))
    (imem' : list (option V)) (tstep : nat) : M unit :=
  match coeffs with
  | [] => ret tt
  | c :: cs =>
      v <- lift (np_dot c imem') ;;
      bs <- get_bufs ;;
      match bs !! j with
      | None => raise IndexError
      | Some b =>
          b' <- lift (setcol b tstep v) ;;
          set_bufs (<[j := b']> bs)
      end ;;;
      deposit_memory (S j) cs imem' tstep
  end.

(** Datasets of a container, by name. *)
Fixpoint ds_lookup (ds : list (string * ndarray V)) (name : string)
  : option (ndarray V) :=
  match ds with
  | [] => None
  | (k, a) :: ds' => if String.eqb k name then Some a else ds_lookup ds' name
  end.

Fixpoint ds_update (ds : list (string * ndarray V)) (name : string)
    (a : ndarray V) : list (string * ndarray V) :=
  match ds with
  | [] => []
  | (k, b) :: ds' =>
      if String.eqb k name then (k, a) :: ds'
      else (k, b) :: ds_update ds' name a
  end.

(** The open container [el_LFP_file]. *)
Definition get_file (fname : string) : M H5File :=
  f <- get_fs ;;
  match f !! fname with
  | Some x => ret x
  | None => raise KeyError
  end.

Definition put_file (fname : string) (x : H5File) : M unit :=
  f <- get_fs ;; set_fs (<[fname := x]> f).

(** [el_LFP_file[name] = a]: a new dataset; the name must be free. *)
Definition create_dataset (fname name : string) (a : ndarray V) : M unit :=
  f <- get_file fname ;;
  match ds_lookup (datasets f) name with
  | Some _ => raise RuntimeError
  | None => put_file fname (mkH5File (datasets f ++ [(name, a)]) (h5_open f))
  end.

(** [el_LFP_file[name][:, tstep] = v] *)
Definition write_column (fname name : string) (tstep : nat)
    (v : list (option V)) : M unit :=
  f <- get_file fname ;;
  match ds_lookup (datasets f) name with
  | None => raise KeyError
  | Some a =>
      a' <- lift (setcol a tstep v) ;;
      put_file fname (mkH5File (ds_update (datasets f) name a') (h5_open f))
  end.

(** Lines 231-234: the same products, written to the container. *)
Fixpoint deposit_file (fname : string) (j : nat) (coeffs : list (ndarray V))
    (imem' : list (option V)) (tstep : nat) : M unit :=
  match coeffs with
  | [] => ret tt
  | c :: cs =>
      v <- lift (np_dot c imem') ;;
      write_column fname (dataset_name j) tstep v ;;;
      deposit_file fname (S j) cs imem' tstep
  end.

(** Lines 196-200: [electrodesLFP]. *)
Fixpoint alloc_memory (c : Cell) (coeffs : list (ndarray V))
  : outcome (list (ndarray V)) :=
  match coeffs with
  | [] => Ok []
  | m :: ms =>
      (q <~ pydiv (tstopms c) (timeres_NEURON c) ;;
       a <~ np_empty (nrows m) (py_int q + 1) ;;
       rest <~ alloc_memory c ms ;;
       Ok (a :: rest))%outcome
  end.

(** Lines 207-211: one dataset per coefficient matrix. *)
Fixpoint alloc_file (c : Cell) (fname : string) (i : nat)
    (coeffs : list (ndarray V)) : M unit :=
  match coeffs with
  | [] => ret tt
  | m :: ms =>
      q <- lift (pydiv (tstopms c) (timeres_NEURON c)) ;;
      a <- lift (np_empty (nrows m) (py_int (q + 1))) ;;
      create_dataset fname (dataset_name i) a ;;;
      alloc_file c fname (S i) ms
  end.

(** The locals of the time loop. *)
Record LoopSt : Type := mkLoopSt {
  tstep : nat;
  counter_ : nat;
  ti : Q;
  imem_buf : list (option V)
}.

(** Lines 219-234, and again lines 249-263: read the current sample and
    deposit one column per coefficient matrix.  [file] is the container's
    name when [to_file] holds.  Returns the buffer [imem]. *)
Definition sample_and_deposit (coeffs : list (ndarray V)) (area' : list V)
    (to_memory : bool) (file : option string) (st : LoopSt)
  : M (list (option V)) :=
  c <- get_cell ;;
  n <- get_nrn ;;
  imem' <- lift (sample_imem n c area' (imem_buf st)) ;;
  when to_memory (deposit_memory 0 coeffs imem' (tstep st)) ;;;
  match file with
  | Some fname => deposit_file fname 0 coeffs imem' (tstep st)
  | None => ret tt
  end ;;;
  ret imem'.

(** Lines 217-245: the time loop, at most [fuel] iterations. *)
Fixpoint time_loop (fuel : nat) (coeffs : list (ndarray V)) (area' : list V)
    (to_memory : bool) (file : option string) (interval : Q) (st : LoopSt)
  : M LoopSt :=
  c <- get_cell ;;
  n <- get_nrn ;;
  if Qltb (h_t n) (tstopms c) then
    match fuel with
    | 0 => raise LoopBound
    | S fuel' =>
        st1 <- (if Qleb 0 (h_t n)
                then imem' <- sample_and_deposit coeffs area' to_memory file st ;;
                     ret (mkLoopSt (S (tstep st)) (counter_ st) (ti st) imem')
                else ret st) ;;
        fadvance ;;;
        ti' <- report_progress (S (counter_ st1)) interval (ti st1) ;;
        time_loop fuel' coeffs area' to_memory file interval
          (mkLoopSt (tstep st1) (S (counter_ st1)) ti' (imem_buf st1))
    end
  else ret st.

(** ** [_run_simulation_with_electrode]: finalization *)

(** [l[i]] for a Python list and a non-negative index. *)
Definition index {A} (l : list A) (i : nat) : M A :=
  match l !! i with
  | Some a => ret a
  | None => raise IndexError
  end.

(** Lines 276-286: the body of [for j, LFP in enumerate(electrodesLFP)].
    From here on the array [LFP] is shared (an electrode's [LFP]
    attribute, an entry of its [CellLFP] list), so it enters the store. *)
Definition finalize_electrode (lendotrodcoeffs0 : nat) (electrodes : list nat)
    (dotprodcoeffs : list (ndarray V)) (j : nat) (LFP' : ndarray V) : M unit :=
  if j <? lendotrodcoeffs0 then ret tt else
  let k := j - lendotrodcoeffs0 in
  (* if hasattr(electrodes[j-lendotrodcoeffs0], 'LFP'): ... += LFP
     else: ... = LFP *)
  e <- index electrodes k ;;
  r <- alloc_array LFP' ;;
  has_LFP <- attr_LFP e ;;
  match has_LFP with
  | Some l => a <- get_array l ;;
              a' <- lift (iadd a LFP') ;;
              put_array l a'
  | None => set_LFP e r
  end ;;;
  (* if electrodes[j-lendotrodcoeffs0].perCellLFP: *)
  el <- get_el e ;;
  when (perCellLFP el)
    ((* if not hasattr(electrodes[j], 'CellLFP'):
            electrodes[j-lendotrodcoeffs0].CellLFP = [] *)
     e' <- index electrodes j ;;
     has_CellLFP <- attr_CellLFP e' ;;
     match has_CellLFP with
     | Some _ => ret tt
     | None => l <- alloc_list [] ;; set_CellLFP e l
     end ;;;
     (* electrodes[j-lendotrodcoeffs0].CellLFP.append(LFP) *)
     the_list <- attr_CellLFP e ;;
     match the_list with
     | Some l => list_append l r
     | None => raise AttributeError
     end) ;;;
  (* electrodes[j-lendotrodcoeffs0].electrodecoeff = dotprodcoeffs[j] *)
  c <- index dotprodcoeffs j ;;
  el <- get_el e ;;
  put_el e (el_set_electrodecoeff el (Some c)).

Fixpoint finalize_electrodes (lendotrodcoeffs0 : nat) (electrodes : list nat)
    (dotprodcoeffs : list (ndarray V)) (j : nat) (LFPs : list (ndarray V))
  : M unit :=
  match LFPs with
  | [] => ret tt
  | LFP' :: rest =>
      finalize_electrode lendotrodcoeffs0 electrodes dotprodcoeffs j LFP' ;;;
      finalize_electrodes lendotrodcoeffs0 electrodes dotprodcoeffs (S j) rest
  end.

(** Lines 270-286. *)
Definition finalize_memory (lendotrodcoeffs0 : nat)
    (electrodes : option (list nat)) (dotprodcoeffs : list (ndarray V))
  : M unit :=
  electrodesLFP <- get_bufs ;;
  (* cell.dotprodresults = electrodesLFP[:lendotrodcoeffs0] *)
  c <- get_cell ;;
  set_cell (cell_set_dotprodresults c
              (Some (take lendotrodcoeffs0 electrodesLFP))) ;;;
  match electrodes with
  | Some els' =>
      finalize_electrodes lendotrodcoeffs0 els' dotprodcoeffs 0 electrodesLFP
  | None => ret tt
  end.

(** ** [_run_simulation_with_electrode] *)

(** The [electrode] argument: one electrode object or a list of them. *)
Inductive ElArg : Type :=
  | ElOne (e : nat)
  | ElList (l : list nat).

(** The [dotprodcoeffs] argument: one matrix or a list of them. *)
Inductive DotArg : Type :=
  | DotOne (a : ndarray V)
  | DotList (l : list (ndarray V)).

(** What lines 79-152 leave to the rest of the function. *)
Record Prepared : Type := mkPrepared {
  p_to_file : bool;
  p_file_name : option string;
  p_lendotrodcoeffs0 : nat;
  p_electrodes : option (list nat);
  p_dotprodcoeffs : list (ndarray V)
}.

(** Lines 79-152: what the run does before it touches the engine. *)
Definition prepare (h5py : bool) (electrode : option ElArg)
    (to_file : bool) (file_name : option string) (dotprodcoeffs : option DotArg)
  : M Prepared :=
  (* try: import h5py
     except: print(...); to_file = False; file_name = None *)
  cfg <- (if h5py then ret (to_file, file_name)
          else print MsgNoH5py ;;; ret (false, None)) ;;
  c <- get_cell ;;
  when (verbose c) (print MsgPrecalc) ;;;
  let dotprodcoeffs' := match dotprodcoeffs with
                        | Some (DotOne a) => [a]
                        | Some (DotList l) => l
                        | None => []
                        end in
  let lendotrodcoeffs0 := length dotprodcoeffs' in
  match electrode with
  | Some arg =>
      let electrodes := match arg with
                        | ElList l => l
                        | ElOne e => [e]
                        end in
      cs <- probe_phase electrodes dotprodcoeffs' ;;
      ret (mkPrepared (fst cfg) (snd cfg) lendotrodcoeffs0 (Some electrodes) cs)
  | None =>
      ret (mkPrepared (fst cfg) (snd cfg) lendotrodcoeffs0 None dotprodcoeffs')
  end.

(** Lines 202-211: open the container and create its datasets. *)
Definition open_file (file_name : option string)
    (dotprodcoeffs : list (ndarray V)) : M string :=
  fn <- match file_name with
        | Some s => ret s
        | None => raise AttributeError
        end ;;
  let fn' := normalize_file_name fn in
  (* h5py.File(file_name, 'w') *)
  put_file fn' (mkH5File [] true) ;;;
  c <- get_cell ;;
  alloc_file c fn' 0 dotprodcoeffs ;;;
  ret fn'.

(** [el_LFP_file.close()] *)
Definition close_file (fn : string) : M unit :=
  f <- get_file fn ;;
  put_file fn (mkH5File (datasets f) false).

(** What the loop leaves to the lines after it: the container's name
    when [to_file] holds, the scaled areas and the loop's locals. *)
Record Looped : Type := mkLooped {
  l_file : option string;
  l_area : list V;
  l_st : LoopSt
}.

(** Lines 154-245: the engine is initialised, the sinks are created and
    the time loop runs. *)
Definition setup_and_loop (fuel : nat) (variable_dt : bool) (atol : Q)
    (to_memory to_file : bool) (file_name : option string)
    (dotprodcoeffs : list (ndarray V)) : M Looped :=
  c <- get_cell ;;
  n <- get_nrn ;;
  set_nrn (init_engine c (adaptive_with_electrode c variable_dt) atol n) ;;;
  n <- get_nrn ;;
  interval <- lift (progress_interval c) ;;
  (* imem = np.empty(cell.totnsegs) *)
  let imem0 := np_empty1 (totnsegs c) in
  when to_memory
    (b <- lift (alloc_memory c dotprodcoeffs) ;; set_bufs b) ;;;
  file <- (if to_file
           then fn <- open_file file_name dotprodcoeffs ;; ret (Some fn)
           else ret None) ;;
  (* area = cell.area * 1E-2 *)
  area' <- match area c with
           | Some a => ret (scaled_area a)
           | None => raise AttributeError
           end ;;
  st <- time_loop fuel dotprodcoeffs area' to_memory file interval
          (mkLoopSt 0 0 (h_t n) imem0) ;;
  ret (mkLooped file area' st).

(** Lines 247-266: [try: (the last sample) except: pass]. *)
Definition last_sample (to_memory : bool) (dotprodcoeffs : list (ndarray V))
    (x : Looped) : M unit :=
  try_pass
    (sample_and_deposit dotprodcoeffs (l_area x) to_memory (l_file x)
       (l_st x) ;;; ret tt).

(** Lines 268-289: results onto the cell and the electrodes, container
    closed. *)
Definition finalize (to_memory : bool) (file : option string)
    (lendotrodcoeffs0 : nat) (electrodes : option (list nat))
    (dotprodcoeffs : list (ndarray V)) : M unit :=
  when to_memory (finalize_memory lendotrodcoeffs0 electrodes dotprodcoeffs) ;;;
  match file with
  | Some fn => close_file fn
  | None => ret tt
  end.

(** Lines 154-289. *)
Definition simulate (fuel : nat) (variable_dt : bool) (atol : Q)
    (to_memory : bool) (p : Prepared) : M unit :=
  x <- setup_and_loop fuel variable_dt atol to_memory (p_to_file p)
         (p_file_name p) (p_dotprodcoeffs p) ;;
  last_sample to_memory (p_dotprodcoeffs p) x ;;;
  finalize to_memory (l_file x) (p_lendotrodcoeffs0 p) (p_electrodes p)
    (p_dotprodcoeffs p).

(** The whole function.  [fuel] bounds the iterations of the time loop;
    [h5py] tells whether [import h5py] succeeds.  The call starts with
    no result arrays of its own. *)
Definition _run_simulation_with_electrode (fuel : nat) (h5py : bool)
    (electrode : option ElArg) (variable_dt : bool) (atol : Q)
    (to_memory to_file : bool) (file_name : option string)
    (dotprodcoeffs : option DotArg) : M unit :=
  set_bufs [] ;;;
  p <- prepare h5py electrode to_file file_name dotprodcoeffs ;;
  simulate fuel variable_dt atol to_memory p.

End Model.

Notation "x <- m ;; k" := (bind m (fun x => k))
  (at level 100, m at next level, right associativity) : run_scope.
Notation "m ;;; k" := (bind m (fun _ => k))
  (at level 100, right associativity) : run_scope.

Arguments mkRes {V D Conf A} _ _ _.
Arguments r_val {V D Conf A} _.
Arguments r_world {V D Conf A} _.
Arguments r_out {V D Conf A} _.

(** * A concrete instance

    Exact rational arithmetic for the floats, an engine that advances time
    by [h.dt] at every [fadvance], and an electrode whose potential at a
    contact is the contact's weight times the summed current. *)

Module Demo.
Local Open Scope Q_scope.

Fixpoint interp_go (x : Q) (xp fp : list Q) : Q :=
  match xp, fp with
  | x0 :: ((x1 :: _) as xp'), f0 :: ((f1 :: _) as fp') =>
      if Qle_bool x x1
      then Qred (f0 + (x - x0) * (f1 - f0) / (x1 - x0))
      else interp_go x xp' fp'
  | _, f0 :: _ => f0
  | _, [] => 0
  end.

(** [np.interp(x, xp, fp)] for increasing [xp]. *)
Definition Qinterp (x : Q) (xp fp : list Q) : Q :=
  match xp, fp with
  | x0 :: _, f0 :: _ => if Qle_bool x x0 then f0 else interp_go x xp fp
  | _, _ => 0
  end.

(** Rounding to six decimals, halves to the even neighbour. *)
Definition Qround6 (x : Q) : Q :=
  let y := Qred (x * 1000000) in
  let n := Qfloor y in
  let frac := Qred (y - inject_Z n) in
  let up := if Qeq_bool frac (1 # 2) then Z.odd n else Qltb (1 # 2) frac in
  Qred (inject_Z (if up then n + 1 else n) / 1000000).

#[export] Instance Q_float : FloatOps Q := {|
  vzero := 0;
  vone := 1;
  c1e_2 := 1 # 100;
  vof_nat := fun n => inject_Z (Z.of_nat n);
  vadd := fun a b => Qred (a + b);
  vsub := fun a b => Qred (a - b);
  vmul := fun a b => Qred (a * b);
  vdiv := fun a b => Qred (a / b);
  vround6 := Qround6;
  vinterp := Qinterp
|}.

(** The engine's dynamic state is the number of steps taken; the membrane
    current density of a segment grows with it. *)
#[export] Instance step_engine : @Engine Q nat := {|
  e_finitialize := fun _ _ => (0, 0%nat);
  e_re_init := fun n => dyn n;
  e_fcurrent := fun n => dyn n;
  e_frecord_init := fun n => dyn n;
  e_loadspikes := fun n => dyn n;
  e_fadvance := fun n => (Qred (h_t n + h_dt n), S (dyn n));
  e_i_membrane := fun n s g => inject_Z (Z.of_nat (1 + dyn n + 10 * s + g)%nat)
|}.

(** Potential of unit weights [ws] for the currents [im] (one column per
    time step): contact [c] sees [ws[c]] times the column's sum. *)
Definition potential (ws : list Q) (im : ndarray Q) : ndarray Q :=
  mkArr (ncols im)
    (map (fun wt =>
            map (fun k =>
                   lift2 vmul (Some wt)
                     (foldl (lift2 vadd) (Some 0)
                        (map (fun row => nth k row None) (rowsdata im))))
              (seq 0 (ncols im)))
       ws).

(** [calc_lfp]: a new array with the potential becomes [el.LFP]; an
    electrode that keeps per-cell contributions gets a new [CellLFP] list
    holding it. *)
#[export] Instance weight_probe : @Probe Q (list Q) := {|
  calc_lfp := fun e c h =>
    match els h !! e, imem c with
    | Some el, Some im =>
        let l := fresh (dom (arrays h)) in
        let h1 := heap_set_array h l (potential (el_conf el) im) in
        let el1 := el_set_LFP el (Some l) in
        if perCellLFP el
        then let cl := fresh (dom (lists h1)) in
             Ok (c, heap_set_el (heap_set_list h1 cl [l]) e
                      (el_set_CellLFP el1 (Some cl)))
        else Ok (c, heap_set_el h1 e el1)
    | _, _ => Raise AttributeError
    end
|}.

(** A cell of two sections with one and two segments. *)
Definition seg (x : Q) : Segment := mkSegment x 2 (100 * x + 50).

Definition traced : Sec :=
  mkSec 2 (fun i => inject_Z (Z.of_nat i) * 10) (fun i => inject_Z (Z.of_nat i) * 10)
    (fun _ => 0) (fun _ => 0) 10 [seg (1 # 4); seg (3 # 4)].

Definition soma : Sec :=
  mkSec 2 (fun i => inject_Z (Z.of_nat i) * 4) (fun _ => 0)
    (fun i => inject_Z (Z.of_nat i) * 4) (fun _ => 0) 4 [seg (1 # 2)].

(** A section without 3-D points. *)
Definition untraced : Sec :=
  mkSec 0 (fun _ => 0) (fun _ => 0) (fun _ => 0) (fun _ => 0) 5 [seg (1 # 2)].

Definition cell0 (secs : list Sec) (n : nat) (dt tstart tstop : Q) : @Cell Q :=
  mkCell false n dt dt (-65) tstart tstop secs
    (Some []) None None None None None None None
    (Some (map (fun i => inject_Z (Z.of_nat (100 * (1 + i))%nat)) (seq 0 n)))
    None None None.

Definition nrn0 : @Neuron nat := mkNeuron (1 # 40) 0 false (1 # 1000) 0%nat.

Definition world0 (c : @Cell Q) (h : @Heap Q (list Q)) : @World Q nat (list Q) :=
  mkWorld c nrn0 h ∅ [].

Definition electrode0 (lfp cell_lfp : option nat) (per_cell : bool)
  : @Electrode Q (list Q) :=
  mkElectrode lfp cell_lfp per_cell None [1; 2].

(** The worlds the statements below are evaluated at. *)

(** Three segments in two traced sections, steps of 1/2 ms from 0 to 1. *)
Definition cell_a : @Cell Q := cell0 [traced; soma] 3 (1 # 2) 0 1.

(** The same cell with a step below 1e-8 ms and nothing to simulate. *)
Definition cell_tiny_dt : @Cell Q :=
  cell0 [traced; soma] 3 (1 # 1000000000) 0 0.

(** One electrode without results. *)
Definition heap_one (per_cell : bool) : @Heap Q (list Q) :=
  mkHeap {[ 0%nat := electrode0 None None per_cell ]} ∅ ∅.

(** Two electrodes: number 0 carries an [LFP] (array 5) and a [CellLFP]
    (list 9) from an earlier cell, number 1 carries neither. *)
Definition heap_two : @Heap Q (list Q) :=
  mkHeap {[ 0%nat := electrode0 (Some 5%nat) (Some 9%nat) false;
            1%nat := electrode0 None None false ]}
    {[ 5%nat := mkArr 1 [[Some 7]; [Some 8]] ]}
    {[ 9%nat := [5%nat] ]}.

(** A caller-supplied coefficient matrix with one contact. *)
Definition ones : ndarray Q := mkArr 3 [[Some 1; Some 1; Some 1]].

(** A cell whose [totnsegs] (1) is not the number of segments of its
    sections (3), and nothing to simulate before the last sample. *)
Definition cell_short : @Cell Q := cell0 [traced; soma] 1 (1 # 2) 0 0.

(** A world whose file system holds a freshly opened, empty container. *)
Definition world_with_file : @World Q nat (list Q) :=
  mkWorld cell_a nrn0 (heap_one false)
    {[ "out.h5"%string := mkH5File [] true ]} [].

End Demo.

(** * Notions used in the statements *)

Section Notions.
Context {V : Type} {FO : FloatOps V} {D Conf : Type}.
Local Abbreviation World := (@World V D Conf).
Local Abbreviation M := (@M V D Conf).
Local Abbreviation Res := (@Res V D Conf).

(** [fs_blind m]: run from a state with another file system, [m] does the
    same, and leaves that file system as it found it. *)
Definition res_with_fs {A} (f : gmap string H5File) (r : Res A) : Res A :=
  mkRes (r_val r) (with_fs (r_world r) f) (r_out r).

Definition fs_blind {A} (m : M A) : Prop :=
  forall w f, m (with_fs w f) = res_with_fs f (m w).

(** A result with one more message printed first. *)
Definition with_msg {A} (x : Msg) (r : Res A) : Res A :=
  mkRes (r_val r) (r_world r) (x :: r_out r).

(** The geometry attributes [_collect_geometry_neuron] sets. *)
Definition geometry (c : @Cell V) :=
  (xstart c, ystart c, zstart c, xend c, yend c, zend c,
   area c, diam c, length_ c).

Definition geometry_result (o : outcome (@Cell V)) :=
  match o with
  | Ok c => Ok (geometry c)
  | Raise e => Raise e
  end.

(** The cell with another section list. *)
Definition cell_with_sections (c : @Cell V) (l : list Sec) : @Cell V :=
  mkCell (verbose c) (totnsegs c) (timeres_python c) (timeres_NEURON c)
    (v_init c) (tstartms c) (tstopms c) l (tvec c) (imem c)
    (xstart c) (ystart c) (zstart c) (xend c) (yend c) (zend c)
    (area c) (diam c) (length_ c) (dotprodresults c).


(** An attribute of the electrode object at [e], [None] when absent. *)
Definition attr_of (field : @Electrode V Conf -> option nat) (h : @Heap V Conf)
    (e : nat) : option nat :=
  match els h !! e with
  | Some el => field el
  | None => None
  end.

(** The datasets of a container that holds the arrays [bs] under the names
    ['electrode{:03d}'.format(i)], [i] counting from [i0]. *)
Fixpoint named (i0 : nat) (bs : list (ndarray V)) : list (string * ndarray V) :=
  match bs with
  | [] => []
  | b :: bs' => (dataset_name i0, b) :: named (S i0) bs'
  end.

(** What [np.empty((r, n))] returns. *)
Definition blank (n : nat) (r : nat) : ndarray V :=
  mkArr n (replicate r (replicate n None)).

End Notions.

(** Reading back the number printed by ['{:03d}'.format]. *)
Definition decode03 (s : string) : option nat :=
  match NilEmpty.uint_of_string s with
  | Some d => Some (Nat.of_uint d)
  | None => None
  end.

(** * Notions for the geometry extractor *)

Section GeometryNotions.
Context {V : Type} {FO : FloatOps V}.

(** The sections with 3-D points, in the order of [cell.allseclist]. *)
Definition traced_sections (l : list (@Sec V)) : list (@Sec V) :=
  List.filter (fun s => 0 <? n3d s) l.

(** Their segments, counted. *)
Definition traced_segments (l : list (@Sec V)) : nat :=
  sum_list (map nseg (traced_sections l)).

(** [1./2/nseg] *)
Definition gsen2 (s : @Sec V) : V :=
  vdiv (vdiv vone (vof_nat 2)) (vof_nat (nseg s)).

(** The normalised arc lengths [L] of a section's 3-D points. *)
Definition trace_L (s : @Sec V) : list V :=
  map (fun i => vdiv (arc3d s i) (sec_L s)) (seq 0 (n3d s)).

(** The interpolated coordinate at the start and at the end of each
    segment of a section. *)
Definition seg_starts (coord : @Sec V -> nat -> V) (s : @Sec V) : list V :=
  map (fun g => vinterp (vround6 (vsub (seg_x g) (gsen2 s))) (trace_L s)
                  (map (coord s) (seq 0 (n3d s))))
    (segs s).

Definition seg_ends (coord : @Sec V -> nat -> V) (s : @Sec V) : list V :=
  map (fun g => vinterp (vround6 (vadd (seg_x g) (gsen2 s))) (trace_L s)
                  (map (coord s) (seq 0 (n3d s))))
    (segs s).

Definition seg_areas (s : @Sec V) : list V := map seg_area (segs s).
Definition seg_diams (s : @Sec V) : list V := map seg_diam (segs s).
Definition seg_lengths (s : @Sec V) : list V :=
  map (fun _ => vdiv (sec_L s) (vof_nat (nseg s))) (segs s).

(** A vector of [n] entries that holds the per-segment values [f] of the
    traced sections one after the other, and zeros after them. *)
Definition laid_out (n : nat) (f : @Sec V -> list V) (l : list (@Sec V))
  : list V :=
  let vals := concat (map f (traced_sections l)) in
  vals ++ replicate (n - length vals) vzero.

(** The nine attributes, in the order of [geometry]. *)
Definition expected_geometry (c : @Cell V) :=
  let n := totnsegs c in
  let l := allseclist c in
  (Some (laid_out n (seg_starts x3d) l), Some (laid_out n (seg_starts y3d) l),
   Some (laid_out n (seg_starts z3d) l),
   Some (laid_out n (seg_ends x3d) l), Some (laid_out n (seg_ends y3d) l),
   Some (laid_out n (seg_ends z3d) l),
   Some (laid_out n seg_areas l), Some (laid_out n seg_diams l),
   Some (laid_out n seg_lengths l)).

(** The loop state after the sections [done]. *)
Definition geom_of (n : nat) (done : list (@Sec V)) : @GeomVecs V :=
  mkGeomVecs (laid_out n seg_areas done) (laid_out n seg_diams done)
    (laid_out n seg_lengths done)
    (laid_out n (seg_starts x3d) done) (laid_out n (seg_ends x3d) done)
    (laid_out n (seg_starts y3d) done) (laid_out n (seg_ends y3d) done)
    (laid_out n (seg_starts z3d) done) (laid_out n (seg_ends z3d) done)
    (traced_segments done).

(** The exceptions the extractor can raise. *)
Definition geometry_exn (e : exn) : Prop :=
  e = ZeroDivisionError \/ e = ValueError \/ e = IndexError.

(** A function that gives one value per segment of a section. *)
Definition per_segment (f : @Sec V -> list V) : Prop :=
  forall s, length (f s) = nseg s.

End GeometryNotions.

(** * Notions for what a run leaves alone *)

Section Frames.
Context {V : Type} {FO : FloatOps V} {D Conf : Type}.
Local Abbreviation World := (@World V D Conf).
Local Abbreviation M := (@M V D Conf).

(** A relation between the state before, the state after and what was
    printed that holds of doing nothing and of doing one thing after
    another. *)
Class Composable (R : World -> World -> list Msg -> Prop) : Prop := {
  comp_refl : forall w, R w w [];
  comp_trans : forall w1 w2 w3 o1 o2,
    R w1 w2 o1 -> R w2 w3 o2 -> R w1 w3 (o1 ++ o2)
}.

(** [keeps R m]: whatever the outcome, [m] relates the state it starts
    from to the state it leaves and to its output by [R]. *)
Definition keeps {A} (R : World -> World -> list Msg -> Prop) (m : M A) : Prop :=
  forall w, R w (r_world (m w)) (r_out (m w)).

(** Only the engine moved: the cell, the store, the file system and the
    result arrays are what they were, the engine has its step and its
    integrator switches, and a cell that is not verbose printed nothing. *)
Definition engine_only (w w' : World) (o : list Msg) : Prop :=
  cell w' = cell w /\ heap w' = heap w /\ fs w' = fs w /\ bufs w' = bufs w /\
  h_dt (nrn w') = h_dt (nrn w) /\
  cvode_active (nrn w') = cvode_active (nrn w) /\
  cvode_atol (nrn w') = cvode_atol (nrn w) /\
  (verbose (cell w) = false -> o = []).

End Frames.

(** * Notions for the time loops *)

(** An engine whose [fadvance] moves the time by the step [h.dt] (NEURON
    with fixed steps). *)
Definition steps_by_dt {V D : Type} (EN : @Engine V D) : Prop :=
  forall n, (fst (e_fadvance n) == h_t n + h_dt n)%Q.

(** The number of steps of [timeres_NEURON] from [tstartms] that reach
    [tstopms]. *)
Definition steps_to_stop {V : Type} (c : @Cell V) : nat :=
  Z.to_nat (Qceiling ((tstopms c - tstartms c) / timeres_NEURON c)).

(** The time after [i] steps. *)
Definition time_after {V : Type} (c : @Cell V) (i : nat) : Q :=
  (tstartms c + inject_Z (Z.of_nat i) * timeres_NEURON c)%Q.

(** * Notions for the current sample *)

Section SampleNotions.
Context {V : Type} {FO : FloatOps V} {D Conf : Type}
        {EN : @Engine V D} {PR : @Probe V Conf}.
Local Open Scope run_scope.
Local Abbreviation World := (@World V D Conf).
Local Abbreviation M := (@M V D Conf).

(** The membrane current densities of the segments, in the order of
    [for sec in cell.allseclist: for seg in sec]. *)
Definition densities (n : @Neuron D) (c : @Cell V) : list V :=
  map (fun sg => e_i_membrane n (fst sg) (snd sg)) (seg_index (allseclist c)).

(** Density times (area times 1e-2), segment by segment. *)
Definition current_sample (n : @Neuron D) (c : @Cell V) (a : list V)
  : list (option V) :=
  zip_with (fun d x => Some (vmul d (vmul x c1e_2))) (densities n c) a.

(** The sampling step as the text describes it: the vector
    [current_sample] of the engine's state is what goes to the sinks. *)
Definition deposit_current_sample (coeffs : list (ndarray V)) (a : list V)
    (to_memory : bool) (file : option string) (k : nat)
  : M (list (option V)) :=
  c <- get_cell ;;
  n <- get_nrn ;;
  let imem' := current_sample n c a in
  when to_memory (deposit_memory 0 coeffs imem' k) ;;;
  match file with
  | Some fname => deposit_file fname 0 coeffs imem' k
  | None => ret tt
  end ;;;
  ret imem'.

(** The time loop with that sampling step. *)
Fixpoint time_loop_by_sample (fuel : nat) (coeffs : list (ndarray V))
    (a : list V) (to_memory : bool) (file : option string) (interval : Q)
    (st : LoopSt) : M LoopSt :=
  c <- get_cell ;;
  n <- get_nrn ;;
  if Qltb (h_t n) (tstopms c) then
    match fuel with
    | 0 => raise LoopBound
    | S fuel' =>
        st1 <- (if Qleb 0 (h_t n)
                then imem' <- deposit_current_sample coeffs a to_memory file
                                (tstep st) ;;
                     ret (mkLoopSt (S (tstep st)) (counter_ st) (ti st) imem')
                else ret st) ;;
        fadvance ;;;
        ti' <- report_progress (S (counter_ st1)) interval (ti st1) ;;
        time_loop_by_sample fuel' coeffs a to_memory file interval
          (mkLoopSt (tstep st1) (S (counter_ st1)) ti' (imem_buf st1))
    end
  else ret st.

(** The setup and the loop, the last sample and the run with that
    sampling step, for a cell whose areas are [a]. *)
Definition setup_and_loop_by_sample (fuel : nat) (variable_dt : bool) (atol : Q)
    (to_memory to_file : bool) (file_name : option string)
    (dotprodcoeffs : list (ndarray V)) (a : list V) : M (@Looped V) :=
  c <- get_cell ;;
  n <- get_nrn ;;
  set_nrn (init_engine c (adaptive_with_electrode c variable_dt) atol n) ;;;
  n <- get_nrn ;;
  interval <- lift (progress_interval c) ;;
  when to_memory
    (b <- lift (alloc_memory c dotprodcoeffs) ;; set_bufs b) ;;;
  file <- (if to_file
           then fn <- open_file file_name dotprodcoeffs ;; ret (Some fn)
           else ret None) ;;
  st <- time_loop_by_sample fuel dotprodcoeffs a to_memory file interval
          (mkLoopSt 0 0 (h_t n) (np_empty1 (totnsegs c))) ;;
  ret (mkLooped file (scaled_area a) st).

Definition last_sample_by_sample (to_memory : bool)
    (dotprodcoeffs : list (ndarray V)) (a : list V) (x : @Looped V) : M unit :=
  try_pass
    (deposit_current_sample dotprodcoeffs a to_memory (l_file x)
       (tstep (l_st x)) ;;; ret tt).

Definition simulate_by_sample (fuel : nat) (variable_dt : bool) (atol : Q)
    (to_memory : bool) (p : Prepared) (a : list V) : M unit :=
  x <- setup_and_loop_by_sample fuel variable_dt atol to_memory (p_to_file p)
         (p_file_name p) (p_dotprodcoeffs p) a ;;
  last_sample_by_sample to_memory (p_dotprodcoeffs p) a x ;;;
  finalize to_memory (l_file x) (p_lendotrodcoeffs0 p) (p_electrodes p)
    (p_dotprodcoeffs p).

(** The cell has one area per segment of its sections, [totnsegs] of
    them. *)
Definition segments_agree (c : @Cell V) (a : list V) : Prop :=
  area c = Some a /\ length a = totnsegs c /\
  length (seg_index (allseclist c)) = totnsegs c.

(** The sinks were written, nothing else changed and nothing was
    printed. *)
Definition sinks_only (w w' : World) (o : list Msg) : Prop :=
  cell w' = cell w /\ nrn w' = nrn w /\ heap w' = heap w /\ o = [].

(** The cell and the store are what they were. *)
Definition cell_and_store_kept (w w' : World) (o : list Msg) : Prop :=
  cell w' = cell w /\ heap w' = heap w.

End SampleNotions.

(** * Properties *)

Section Properties.
Context {V : Type} {FO : FloatOps V} {D Conf : Type}
        {EN : @Engine V D} {PR : @Probe V Conf}.
Local Open Scope run_scope.
Local Abbreviation World := (@World V D Conf).
Local Abbreviation M := (@M V D Conf).
Local Abbreviation Res := (@Res V D Conf).
Local Abbreviation Cell := (@Cell V).
Local Abbreviation blank := (@blank V).
Local Abbreviation named := (@named V).
Local Abbreviation fs_blind := (@fs_blind V D Conf _).
Local Abbreviation with_msg := (@with_msg V D Conf _).
Local Abbreviation res_with_fs := (@res_with_fs V D Conf _).

(** ** Dataset names, and [int] on non-negative ratios *)

Lemma to_uint_nonnil i : Nat.to_uint i <> Decimal.Nil.
Proof.
  pose proof (Unsigned.to_of (Nat.to_uint i)) as E.
  rewrite Unsigned.of_to in E. rewrite E. apply DecimalFacts.unorm_nonnil.
Qed.

Lemma of_uint_D0 d : Nat.of_uint (Decimal.D0 d) = Nat.of_uint d.
Proof. reflexivity. Qed.

Lemma decode03_format03 i : decode03 (format03 i) = Some i.
Proof.
  unfold format03, pad3, decode03.
  assert (E : NilEmpty.uint_of_string (NilZero.string_of_uint (Nat.to_uint i))
              = Some (Nat.to_uint i)).
  { pose proof (to_uint_nonnil i) as Hn. unfold NilZero.string_of_uint.
    destruct (Nat.to_uint i); [contradiction| apply NilEmpty.usu ..]. }
  pose proof (Unsigned.of_to i) as F.
  set (s := NilZero.string_of_uint (Nat.to_uint i)) in *.
  set (d := Nat.to_uint i) in *. clearbody s d.
  destruct (String.length s) as [|[|[|n]]]; cbv [String.append]; cbn;
    rewrite E; cbn; rewrite <- F; reflexivity.
Qed.

Lemma format03_inj i j : format03 i = format03 j -> i = j.
Proof.
  intros E. apply (f_equal decode03) in E. rewrite !decode03_format03 in E.
  congruence.
Qed.

Lemma dataset_name_inj i j : dataset_name i = dataset_name j -> i = j.
Proof.
  unfold dataset_name. cbv [String.append]. intros E.
  apply format03_inj. congruence.
Qed.

Lemma py_int_nonneg q : (0 <= q)%Q -> py_int q = py_floor q.
Proof.
  unfold py_int, py_floor, Qfloor, Qle. destruct q as [n d]; cbn. intros Hn.
  apply Z.quot_div_nonneg; lia.
Qed.

Lemma py_floor_nonneg q : (0 <= q)%Q -> (0 <= py_floor q)%Z.
Proof.
  unfold py_floor, Qfloor, Qle. destruct q as [n d]; cbn. intros Hn.
  apply Z.div_pos; lia.
Qed.

Lemma py_int_succ q : (0 <= q)%Q -> py_int (q + 1) = (py_int q + 1)%Z.
Proof.
  unfold py_int, Qle. destruct q as [n d]; cbn. intros Hn.
  rewrite Pos.mul_1_r, Z.mul_1_r.
  rewrite !Z.quot_div_nonneg by lia.
  rewrite <- (Z.mul_1_l (Z.pos d)) at 1.
  rewrite Z.div_add by lia. reflexivity.
Qed.

Lemma ratio_nonneg a b : (0 < b)%Q -> (0 <= a)%Q -> (0 <= a / b)%Q.
Proof.
  intros Hb Ha. apply Qle_shift_div_l; [exact Hb|]. rewrite Qmult_0_l. exact Ha.
Qed.

Lemma pydiv_pos a b : (0 < b)%Q -> pydiv a b = Ok (a / b)%Q.
Proof.
  intros Hb. unfold pydiv.
  destruct (Qeq_bool b 0) eqn:E; [|reflexivity].
  apply Qeq_bool_eq in E. rewrite E in Hb. discriminate.
Qed.

(** ** The monad *)

Lemma res_eta {A} (r : Res A) : mkRes (r_val r) (r_world r) (r_out r) = r.
Proof. destruct r; reflexivity. Qed.

Lemma world_eta (w : World) : with_fs w (fs w) = w.
Proof. destruct w; reflexivity. Qed.

Lemma bind_ok {A B} (m : M A) (k : A -> M B) w a :
  r_val (m w) = Ok a ->
  bind m k w = mkRes (r_val (k a (r_world (m w)))) (r_world (k a (r_world (m w))))
                 (r_out (m w) ++ r_out (k a (r_world (m w)))).
Proof. intros E. unfold bind. rewrite E. reflexivity. Qed.

Lemma bind_raise {A B} (m : M A) (k : A -> M B) w e :
  r_val (m w) = Raise e ->
  bind m k w = mkRes (Raise e) (r_world (m w)) (r_out (m w)).
Proof. intros E. unfold bind. rewrite E. reflexivity. Qed.

(** ** Code that does not look at the file system *)


Lemma fs_blind_bind {A B} (m : M A) (k : A -> M B) :
  fs_blind m -> (forall a, fs_blind (k a)) -> fs_blind (bind m k).
Proof.
  intros Hm Hk w f. unfold bind. cbv beta zeta.
  generalize (Hm w f). generalize (m (with_fs w f)). intros r ->.
  destruct (m w) as [v w1 o]. cbn [r_val r_world r_out res_with_fs].
  destruct v; [|reflexivity].
  generalize (Hk a w1 f). generalize (k a (with_fs w1 f)). intros r ->.
  reflexivity.
Qed.

Lemma bind_ret_l {A B} (a : A) (k : A -> M B) w : bind (ret a) k w = k a w.
Proof. unfold bind, ret. cbn. destruct (k a w); reflexivity. Qed.

Lemma fs_blind_bind_ret {A B} (a : A) (k : A -> M B) :
  fs_blind (k a) -> fs_blind (bind (ret a) k).
Proof. intros Hk w f. rewrite !bind_ret_l. apply Hk. Qed.

Lemma fs_blind_ret {A} (a : A) : fs_blind (ret a : M A).
Proof. intros w f; reflexivity. Qed.
Lemma fs_blind_raise {A} e : fs_blind (@raise V D Conf A e).
Proof. intros w f; reflexivity. Qed.
Lemma fs_blind_lift {A} (o : outcome A) : fs_blind (lift o : M A).
Proof. intros w f; reflexivity. Qed.
Lemma fs_blind_print x : fs_blind (print x : M unit).
Proof. intros w f; reflexivity. Qed.
Lemma fs_blind_get_cell : fs_blind (get_cell : M _).
Proof. intros w f; reflexivity. Qed.
Lemma fs_blind_set_cell c : fs_blind (set_cell c : M _).
Proof. intros w f; reflexivity. Qed.
Lemma fs_blind_get_nrn : fs_blind (get_nrn : M _).
Proof. intros w f; reflexivity. Qed.
Lemma fs_blind_set_nrn n : fs_blind (set_nrn n : M _).
Proof. intros w f; reflexivity. Qed.
Lemma fs_blind_get_heap : fs_blind (get_heap : M _).
Proof. intros w f; reflexivity. Qed.
Lemma fs_blind_set_heap h : fs_blind (set_heap h : M _).
Proof. intros w f; reflexivity. Qed.
Lemma fs_blind_get_bufs : fs_blind (get_bufs : M _).
Proof. intros w f; reflexivity. Qed.
Lemma fs_blind_set_bufs b : fs_blind (set_bufs b : M _).
Proof. intros w f; reflexivity. Qed.

Lemma fs_blind_try_pass m : fs_blind m -> fs_blind (try_pass m).
Proof.
  intros Hm w f. unfold try_pass. cbv beta zeta.
  generalize (Hm w f). generalize (m (with_fs w f)). intros r ->.
  reflexivity.
Qed.

Lemma fs_blind_when b m : fs_blind m -> fs_blind (when b m).
Proof. destruct b; cbn; [trivial | intros _; apply fs_blind_ret]. Qed.

Lemma fs_blind_foldM {A S} (f : S -> A -> M S) l :
  (forall s a, fs_blind (f s a)) -> forall s, fs_blind (foldM f s l).
Proof.
  intros Hf. induction l as [|a l IH]; intros s; cbn.
  - apply fs_blind_ret.
  - apply fs_blind_bind; [apply Hf | exact IH].
Qed.

Create HintDb fsb discriminated.
Hint Resolve fs_blind_ret fs_blind_raise fs_blind_lift fs_blind_print
  fs_blind_get_cell fs_blind_set_cell fs_blind_get_nrn fs_blind_set_nrn
  fs_blind_get_heap fs_blind_set_heap fs_blind_get_bufs fs_blind_set_bufs
  : fsb.

Ltac fs_blind_step :=
  match goal with
  | |- fs_blind (bind (ret _) _) => apply fs_blind_bind_ret
  | |- fs_blind (bind _ _) => apply fs_blind_bind; [|intros]
  | |- fs_blind (when _ _) => apply fs_blind_when
  | |- fs_blind (try_pass _) => apply fs_blind_try_pass
  | |- fs_blind (foldM _ _ _) => apply fs_blind_foldM; intros
  | |- fs_blind (match ?x with _ => _ end) => destruct x
  | |- fs_blind _ => solve [auto with fsb]
  end.
Ltac fs_blind_auto := repeat fs_blind_step.

Lemma fs_blind_get_el e : fs_blind (get_el e).
Proof. unfold get_el. fs_blind_auto. Qed.
Lemma fs_blind_put_el e el : fs_blind (put_el e el).
Proof. unfold put_el. fs_blind_auto. Qed.
Hint Resolve fs_blind_get_el fs_blind_put_el : fsb.
Lemma fs_blind_attr_LFP e : fs_blind (attr_LFP e).
Proof. unfold attr_LFP. fs_blind_auto. Qed.
Lemma fs_blind_attr_CellLFP e : fs_blind (attr_CellLFP e).
Proof. unfold attr_CellLFP. fs_blind_auto. Qed.
Lemma fs_blind_set_LFP e x : fs_blind (set_LFP e x).
Proof. unfold set_LFP. fs_blind_auto. Qed.
Lemma fs_blind_del_LFP e : fs_blind (del_LFP e).
Proof. unfold del_LFP. fs_blind_auto. Qed.
Lemma fs_blind_set_CellLFP e x : fs_blind (set_CellLFP e x).
Proof. unfold set_CellLFP. fs_blind_auto. Qed.
Lemma fs_blind_del_CellLFP e : fs_blind (del_CellLFP e).
Proof. unfold del_CellLFP. fs_blind_auto. Qed.
Lemma fs_blind_get_array l : fs_blind (get_array l).
Proof. unfold get_array. fs_blind_auto. Qed.
Lemma fs_blind_put_array l a : fs_blind (put_array l a).
Proof. unfold put_array. fs_blind_auto. Qed.
Lemma fs_blind_alloc_array a : fs_blind (alloc_array a).
Proof. unfold alloc_array. fs_blind_auto. Qed.
Lemma fs_blind_alloc_list x : fs_blind (alloc_list x).
Proof. unfold alloc_list. fs_blind_auto. Qed.
Lemma fs_blind_list_append l r : fs_blind (list_append l r).
Proof. unfold list_append. fs_blind_auto. Qed.
Lemma fs_blind_call_calc_lfp e : fs_blind (call_calc_lfp e).
Proof. unfold call_calc_lfp. fs_blind_auto. Qed.
Lemma fs_blind_local {A} (x : option A) : fs_blind (local x).
Proof. unfold local. fs_blind_auto. Qed.
Lemma fs_blind_index {A} (l : list A) i : fs_blind (index l i).
Proof. unfold index. fs_blind_auto. Qed.
Hint Resolve fs_blind_attr_LFP fs_blind_attr_CellLFP fs_blind_set_LFP
  fs_blind_del_LFP fs_blind_set_CellLFP fs_blind_del_CellLFP
  fs_blind_get_array fs_blind_put_array fs_blind_alloc_array
  fs_blind_alloc_list fs_blind_list_append fs_blind_call_calc_lfp
  fs_blind_local fs_blind_index : fsb.

Lemma fs_blind_probe_electrode st e : fs_blind (probe_electrode st e).
Proof. unfold probe_electrode. fs_blind_auto. Qed.
Hint Resolve fs_blind_probe_electrode : fsb.

Lemma fs_blind_probe_phase es cs : fs_blind (probe_phase es cs).
Proof. unfold probe_phase. fs_blind_auto. Qed.
Hint Resolve fs_blind_probe_phase : fsb.

Lemma fs_blind_prepare h5py el tf fn dot : fs_blind (prepare h5py el tf fn dot).
Proof. unfold prepare. fs_blind_auto. Qed.


Lemma bind_inv {A B} (m : M A) (k : A -> M B) w b :
  r_val (bind m k w) = Ok b ->
  exists a, r_val (m w) = Ok a /\ r_val (k a (r_world (m w))) = Ok b.
Proof.
  unfold bind. cbv beta zeta. destruct (r_val (m w)) as [a|e]; cbn.
  - intros E. exists a. split; [reflexivity | exact E].
  - discriminate.
Qed.

Lemma fs_blind_bind_post {A B} (P : A -> Prop) (m : M A) (k : A -> M B) :
  fs_blind m ->
  (forall w a, r_val (m w) = Ok a -> P a) ->
  (forall a, P a -> fs_blind (k a)) ->
  fs_blind (bind m k).
Proof.
  intros Hm HP Hk w f. unfold bind. cbv beta zeta.
  generalize (Hm w f). generalize (m (with_fs w f)). intros r ->.
  pose proof (HP w) as HPw.
  destruct (m w) as [v w1 o]. cbn [r_val r_world r_out res_with_fs] in *.
  destruct v; [|reflexivity].
  generalize (Hk a (HPw a eq_refl) w1 f).
  generalize (k a (with_fs w1 f)). intros r ->.
  reflexivity.
Qed.

Lemma fs_blind_report_progress n i t : fs_blind (report_progress n i t).
Proof. unfold report_progress. fs_blind_auto. Qed.
Lemma fs_blind_fadvance : fs_blind fadvance.
Proof. unfold fadvance. fs_blind_auto. Qed.
Hint Resolve fs_blind_report_progress fs_blind_fadvance : fsb.

Lemma fs_blind_deposit_memory cs : forall j v k, fs_blind (deposit_memory j cs v k).
Proof. induction cs as [|c cs IH]; intros j v k; cbn; fs_blind_auto. Qed.
Hint Resolve fs_blind_deposit_memory : fsb.

Lemma fs_blind_sample_and_deposit cs a tm st :
  fs_blind (sample_and_deposit cs a tm None st).
Proof. unfold sample_and_deposit. fs_blind_auto. Qed.
Hint Resolve fs_blind_sample_and_deposit : fsb.

Lemma fs_blind_time_loop fuel cs a tm i :
  forall st, fs_blind (time_loop fuel cs a tm None i st).
Proof.
  induction fuel as [|fuel IH]; intros st; cbn; fs_blind_auto.
Qed.
Hint Resolve fs_blind_time_loop : fsb.

Lemma fs_blind_setup_and_loop fuel vdt atol tm fn cs :
  fs_blind (setup_and_loop fuel vdt atol tm false fn cs).
Proof. unfold setup_and_loop. cbv iota. fs_blind_auto. Qed.

Lemma fs_blind_finalize_electrode l0 es cs j a :
  fs_blind (finalize_electrode l0 es cs j a).
Proof. unfold finalize_electrode. fs_blind_auto. Qed.
Hint Resolve fs_blind_finalize_electrode : fsb.

Lemma fs_blind_finalize_electrodes l0 es cs bs :
  forall j, fs_blind (finalize_electrodes l0 es cs j bs).
Proof. induction bs as [|b bs IH]; intros j; cbn; fs_blind_auto. Qed.
Hint Resolve fs_blind_finalize_electrodes : fsb.

Lemma fs_blind_finalize_memory l0 es cs : fs_blind (finalize_memory l0 es cs).
Proof. unfold finalize_memory. fs_blind_auto. Qed.
Hint Resolve fs_blind_finalize_memory : fsb.

Lemma setup_and_loop_no_file fuel vdt atol tm fn cs (w : World) x :
  r_val (setup_and_loop fuel vdt atol tm false fn cs w) = Ok x ->
  l_file x = None.
Proof.
  unfold setup_and_loop. intros E.
  repeat (apply bind_inv in E; destruct E as [? [? E]]).
  cbn in E. injection E as <-. cbn.
  match goal with H : r_val (ret None _) = Ok ?f |- ?f = None =>
    cbn in H; congruence end.
Qed.


Lemma fs_blind_last_sample tm cs x :
  l_file x = None -> fs_blind (last_sample tm cs x).
Proof. unfold last_sample. intros ->. fs_blind_auto. Qed.

Lemma fs_blind_finalize tm l0 es cs : fs_blind (finalize tm None l0 es cs).
Proof. unfold finalize. fs_blind_auto. Qed.

Lemma fs_blind_simulate fuel vdt atol tm p :
  p_to_file p = false -> fs_blind (simulate fuel vdt atol tm p).
Proof.
  intros Hp. unfold simulate. rewrite Hp.
  apply (fs_blind_bind_post (fun x => l_file x = None)).
  - apply fs_blind_setup_and_loop.
  - intros w a. apply setup_and_loop_no_file.
  - intros x Hx. rewrite Hx. apply fs_blind_bind; [|intros].
    + apply fs_blind_last_sample, Hx.
    + apply fs_blind_finalize.
Qed.

Lemma prepare_to_file el tf fn dot (w : World) p :
  r_val (prepare true el tf fn dot w) = Ok p ->
  p_to_file p = tf /\ p_file_name p = fn.
Proof.
  unfold prepare. intros E.
  rewrite bind_ret_l in E.
  repeat (apply bind_inv in E; destruct E as [? [? E]]).
  destruct el as [arg|].
  - apply bind_inv in E. destruct E as [? [? E]].
    cbn in E. injection E as <-. split; reflexivity.
  - cbn in E. injection E as <-. split; reflexivity.
Qed.

(** A run that writes no file leaves the file system alone. *)
Lemma fs_blind_run_memory_only fuel el vdt atol tm dot :
  fs_blind (_run_simulation_with_electrode fuel true el vdt atol tm false None dot).
Proof.
  unfold _run_simulation_with_electrode.
  apply fs_blind_bind; [auto with fsb | intros _].
  apply (fs_blind_bind_post (fun p => p_to_file p = false)).
  - apply fs_blind_prepare.
  - intros w p Hp. apply (prepare_to_file _ _ _ _ _ _ Hp).
  - intros p Hp. apply fs_blind_simulate, Hp.
Qed.


Lemma bind_with_msg {A B} (m m' : M A) (k : A -> M B) x w :
  m w = with_msg x (m' w) -> bind m k w = with_msg x (bind m' k w).
Proof.
  intros E. unfold bind. cbv beta zeta. rewrite E.
  unfold with_msg. cbn. destruct (r_val (m' w)); reflexivity.
Qed.

Lemma prepare_without_h5py el tf fn dot (w : World) :
  prepare false el tf fn dot w = with_msg MsgNoH5py (prepare true el false None dot w).
Proof.
  unfold prepare. apply bind_with_msg. reflexivity.
Qed.

Lemma run_without_h5py fuel el vdt atol tm tf fn dot (w : World) :
  _run_simulation_with_electrode fuel false el vdt atol tm tf fn dot w =
  with_msg MsgNoH5py
    (_run_simulation_with_electrode fuel true el vdt atol tm false None dot w).
Proof.
  unfold _run_simulation_with_electrode.
  unfold bind at 1 3. cbn [set_bufs r_val r_world r_out].
  rewrite (bind_with_msg _ _ _ _ _ (prepare_without_h5py el tf fn dot _)).
  reflexivity.
Qed.


(** ** The probe leaves the cell's [tvec] and [imem] as they were *)

Lemma probe_phase_restores (electrodes : list nat) (cs : list (ndarray V))
    (w : World) x :
  r_val (probe_phase electrodes cs w) = Ok x ->
  tvec (cell (r_world (probe_phase electrodes cs w))) = tvec (cell w) /\
  imem (cell (r_world (probe_phase electrodes cs w))) = imem (cell w).
Proof.
  unfold probe_phase, bind, get_cell, set_cell. cbn.
  destruct (tvec (cell w)) as [t|] eqn:Ht; cbn; [|discriminate].
  match goal with |- context [foldM ?f ?s ?l ?w0] => set (r1 := foldM f s l w0) end.
  destruct (r_val r1) as [st|e] eqn:Hr1; cbn; [|discriminate].
  destruct (imem (cell w)) as [a|] eqn:Hi; cbn.
  - intros _. split; reflexivity.
  - destruct (imem (cell (r_world r1))) eqn:Hi1; cbn.
    + intros _. split; reflexivity.
    + discriminate.
Qed.

Lemma prepare_world h5py el tf fn dot (w : World) :
  r_world (prepare h5py el tf fn dot w) =
  match el with
  | Some arg =>
      r_world (probe_phase (match arg with ElList l => l | ElOne e => [e] end)
                 (match dot with
                  | Some (DotOne a) => [a]
                  | Some (DotList l) => l
                  | None => []
                  end) w)
  | None => w
  end.
Proof.
  destruct h5py; [|rewrite prepare_without_h5py; cbn [with_msg r_world]];
    unfold prepare; rewrite bind_ret_l;
    (destruct el as [arg|];
     [set (m := probe_phase _ _); clearbody m|]);
    unfold bind, get_cell, when; cbn;
    destruct (verbose (cell w)); cbn; try reflexivity;
    destruct (r_val (m w)); reflexivity.
Qed.

Lemma prepare_ok_probe_ok h5py arg tf fn dot (w : World) p :
  r_val (prepare h5py (Some arg) tf fn dot w) = Ok p ->
  exists x,
    r_val (probe_phase (match arg with ElList l => l | ElOne e => [e] end)
             (match dot with
              | Some (DotOne a) => [a]
              | Some (DotList l) => l
              | None => []
              end) w) = Ok x.
Proof.
  destruct h5py; [|rewrite prepare_without_h5py; cbn [with_msg r_val]];
    unfold prepare; rewrite bind_ret_l;
    set (m := probe_phase _ _); clearbody m;
    unfold bind, get_cell, when; cbn;
    destruct (verbose (cell w)); cbn;
    destruct (r_val (m w)) as [x|]; cbn; intros E; try discriminate;
    exists x; reflexivity.
Qed.

(** C10.  After the probe phase of [_run_simulation_with_electrode] (lines
    79-152, [prepare]) has completed, [cell.tvec] is what it was before,
    and [cell.imem] is restored: the array it held before, or absent again
    if it was absent. *)
Theorem C10_probe_restores_tvec_and_imem h5py el tf fn dot (w : World) p :
  r_val (prepare h5py el tf fn dot w) = Ok p ->
  tvec (cell (r_world (prepare h5py el tf fn dot w))) = tvec (cell w) /\
  imem (cell (r_world (prepare h5py el tf fn dot w))) = imem (cell w).
Proof.
  intros E. rewrite prepare_world. destruct el as [arg|].
  - destruct (prepare_ok_probe_ok _ _ _ _ _ _ _ E) as [x Hx].
    exact (probe_phase_restores _ _ _ _ Hx).
  - split; reflexivity.
Qed.

(** ** A missing [h5py] *)

(** C8.  When [import h5py] fails, the run prints the warning and then
    does exactly what a run with [to_file = False] and [file_name = None]
    does with [h5py] present: same outcome (so the missing import aborts
    nothing), same final state, and no file is written. *)
Theorem C8_missing_h5py_disables_file_output
    fuel el vdt atol tm tf fn dot (w : World) :
  let r := _run_simulation_with_electrode fuel false el vdt atol tm tf fn dot w in
  let r' := _run_simulation_with_electrode fuel true el vdt atol tm false None dot w in
  r_out r = MsgNoH5py :: r_out r' /\
  r_val r = r_val r' /\
  r_world r = r_world r' /\
  fs (r_world r) = fs w.
Proof.
  cbv zeta. rewrite run_without_h5py. cbn [with_msg r_out r_val r_world].
  repeat split.
  pose proof (fs_blind_run_memory_only fuel el vdt atol tm dot w (fs w)) as Hb.
  rewrite world_eta in Hb.
  set (r := _run_simulation_with_electrode _ _ _ _ _ _ _ _ _ w) in *.
  rewrite Hb at 1. reflexivity.
Qed.


(** ** Geometry: a section without 3-D points *)


Lemma collect_section_untraced g sec :
  n3d sec = 0 -> nseg sec <> 0 -> collect_section g sec = Ok g.
Proof.
  intros Hn Hs. unfold collect_section.
  destruct (Nat.eqb_spec (nseg sec) 0) as [E|_]; [contradiction|].
  rewrite Hn. reflexivity.
Qed.

Lemma collect_sections_app g l1 l2 :
  collect_sections g (l1 ++ l2) =
  obind (collect_sections g l1) (fun g' => collect_sections g' l2).
Proof.
  revert g. induction l1 as [|s l1 IH]; intros g; cbn; [reflexivity|].
  destruct (collect_section g s) as [g'|e]; cbn; [apply IH | reflexivity].
Qed.

Lemma collect_sections_skip g l1 sec l2 :
  n3d sec = 0 -> nseg sec <> 0 ->
  collect_sections g (l1 ++ sec :: l2) = collect_sections g (l1 ++ l2).
Proof.
  intros Hn Hs. rewrite !collect_sections_app.
  destruct (collect_sections g l1) as [g'|e]; cbn; [|reflexivity].
  rewrite collect_section_untraced by assumption. reflexivity.
Qed.

(** C2, as the code has it.  A section with no 3-D points and a nonzero
    segment count raises nothing: it is skipped, nothing is stored for its
    segments and the running index does not move, so the extractor
    returns exactly what it returns for the section list without that
    section (the entries of the later segments start where the skipped
    section's would have). *)
Theorem C2_untraced_section_is_skipped (c : Cell) l1 sec l2 :
  allseclist c = l1 ++ sec :: l2 ->
  n3d sec = 0 -> nseg sec <> 0 ->
  geometry_result (_collect_geometry_neuron c) =
  geometry_result (_collect_geometry_neuron (cell_with_sections c (l1 ++ l2))).
Proof.
  intros Hl Hn Hs. unfold _collect_geometry_neuron. rewrite Hl.
  cbn [allseclist totnsegs cell_with_sections].
  rewrite collect_sections_skip by assumption.
  destruct (collect_sections _ _); reflexivity.
Qed.


(** ** The result containers *)

Lemma named_app i (l1 l2 : list (ndarray V)) :
  named i (l1 ++ l2) = named i l1 ++ named (i + length l1) l2.
Proof.
  revert i. induction l1 as [|b l1 IH]; intros i; cbn.
  - rewrite Nat.add_0_r. reflexivity.
  - rewrite IH. rewrite Nat.add_succ_r. reflexivity.
Qed.

Lemma named_snoc (l : list (ndarray V)) a :
  named 0 l ++ [(dataset_name (length l), a)] = named 0 (l ++ [a]).
Proof. rewrite named_app. reflexivity. Qed.

Lemma dataset_name_eqb i j :
  String.eqb (dataset_name i) (dataset_name j) = (i =? j).
Proof.
  destruct (Nat.eqb_spec i j) as [->|Hne].
  - apply String.eqb_refl.
  - apply String.eqb_neq. intros E. apply Hne, dataset_name_inj, E.
Qed.

Lemma ds_lookup_named i (bs : list (ndarray V)) k :
  ds_lookup (named i bs) (dataset_name (i + k)) = bs !! k.
Proof.
  revert i k. induction bs as [|b bs IH]; intros i k; cbn; [reflexivity|].
  rewrite dataset_name_eqb. destruct k as [|k].
  - rewrite Nat.add_0_r, Nat.eqb_refl. reflexivity.
  - destruct (Nat.eqb_spec i (i + S k)) as [E|_]; [lia|].
    rewrite <- Nat.add_succ_comm. apply IH.
Qed.

Lemma ds_update_named i (bs : list (ndarray V)) k a :
  ds_update (named i bs) (dataset_name (i + k)) a = named i (<[k := a]> bs).
Proof.
  revert i k. induction bs as [|b bs IH]; intros i k; cbn; [reflexivity|].
  rewrite dataset_name_eqb. destruct k as [|k].
  - rewrite Nat.add_0_r, Nat.eqb_refl. reflexivity.
  - destruct (Nat.eqb_spec i (i + S k)) as [E|_]; [lia|].
    cbn. rewrite <- Nat.add_succ_comm, IH. reflexivity.
Qed.

Lemma bind_nil {A B} (m : M A) (k : A -> M B) w a w' :
  m w = mkRes (Ok a) w' [] -> bind m k w = k a w'.
Proof.
  intros E. unfold bind. cbv beta zeta. rewrite E. cbn. apply res_eta.
Qed.

Lemma get_file_found fn f (w : World) :
  fs w !! fn = Some f -> get_file fn w = mkRes (Ok f) w [].
Proof. intros E. unfold get_file, bind, get_fs. cbn. rewrite E. reflexivity. Qed.

Lemma put_file_run fn f (w : World) :
  put_file fn f w = mkRes (Ok tt) (with_fs w (<[fn := f]> (fs w))) [].
Proof. reflexivity. Qed.

Lemma create_dataset_new fn name a f (w : World) :
  fs w !! fn = Some f -> ds_lookup (datasets f) name = None ->
  create_dataset fn name a w =
  mkRes (Ok tt)
    (with_fs w (<[fn := mkH5File (datasets f ++ [(name, a)]) (h5_open f)]> (fs w))) [].
Proof.
  intros Hf Hn. unfold create_dataset.
  rewrite (bind_nil _ _ _ _ _ (get_file_found _ _ _ Hf)).
  rewrite Hn. apply put_file_run.
Qed.

Lemma with_fs_same (w : World) fn f :
  fs w !! fn = Some f -> with_fs w (<[fn := f]> (fs w)) = w.
Proof. intros E. rewrite insert_id by exact E. apply world_eta. Qed.

Lemma with_fs_twice (w : World) fn f g :
  with_fs (with_fs w (<[fn := f]> (fs w)))
    (<[fn := g]> (fs (with_fs w (<[fn := f]> (fs w))))) =
  with_fs w (<[fn := g]> (fs w)).
Proof. cbn. rewrite insert_insert_eq. reflexivity. Qed.

Lemma alloc_memory_shape (c : Cell) cs :
  (0 < timeres_NEURON c)%Q -> (0 <= tstopms c)%Q ->
  alloc_memory c cs =
  Ok (map (fun m => blank (Z.to_nat (py_floor (tstopms c / timeres_NEURON c) + 1))
                      (nrows m)) cs).
Proof.
  intros Hdt Hstop.
  pose proof (ratio_nonneg _ _ Hdt Hstop) as Hq.
  induction cs as [|m ms IH]; cbn; [reflexivity|].
  rewrite (pydiv_pos _ _ Hdt). cbn. rewrite IH. cbn.
  unfold np_empty. rewrite (py_int_nonneg _ Hq).
  pose proof (py_floor_nonneg _ Hq) as Hf.
  destruct (Z.ltb_spec (py_floor (tstopms c / timeres_NEURON c) + 1) 0); [lia|].
  reflexivity.
Qed.

Lemma alloc_file_shape (c : Cell) fn cs :
  (0 < timeres_NEURON c)%Q -> (0 <= tstopms c)%Q ->
  forall pre o (w : World),
    fs w !! fn = Some (mkH5File (named 0 pre) o) ->
    alloc_file c fn (length pre) cs w =
    mkRes (Ok tt)
      (with_fs w
         (<[fn := mkH5File
                    (named 0
                       (pre ++
                        map (fun m =>
                               blank (Z.to_nat (py_floor (tstopms c / timeres_NEURON c) + 1))
                                 (nrows m)) cs)) o]> (fs w))) [].
Proof.
  intros Hdt Hstop.
  pose proof (ratio_nonneg _ _ Hdt Hstop) as Hq.
  pose proof (py_floor_nonneg _ Hq) as Hf.
  induction cs as [|m ms IH]; intros pre o w Hw; cbn [alloc_file map].
  - rewrite app_nil_r. rewrite (with_fs_same _ _ _ Hw). reflexivity.
  - rewrite (pydiv_pos _ _ Hdt).
    change (lift (Ok ?a)) with (@ret V D Conf _ a). rewrite bind_ret_l.
    unfold np_empty. rewrite (py_int_succ _ Hq), (py_int_nonneg _ Hq).
    destruct (Z.ltb_spec (py_floor (tstopms c / timeres_NEURON c) + 1) 0); [lia|].
    change (lift (Ok ?a)) with (@ret V D Conf _ a). rewrite bind_ret_l.
    erewrite bind_nil.
    2:{ apply create_dataset_new; [exact Hw|]. cbn [datasets].
        rewrite <- (Nat.add_0_l (length pre)), ds_lookup_named.
        apply lookup_ge_None. lia. }
    cbn [datasets h5_open]. rewrite named_snoc.
    match goal with |- context [named 0 (pre ++ [?a])] =>
      replace (S (length pre)) with (length (pre ++ [a]))
        by (rewrite length_app; cbn; lia);
      rewrite (IH (pre ++ [a]) o) by (cbn; apply lookup_insert_eq)
    end.
    rewrite with_fs_twice. rewrite <- app_assoc. reflexivity.
Qed.



(** ** Exceptions *)


End Properties.

(** * The geometry extractor *)

Section GeometryProperties.
Context {V : Type} {FO : FloatOps V}.
Local Abbreviation Sec := (@Sec V).
Local Abbreviation Cell := (@Cell V).

Lemma per_segment_starts (coord : Sec -> nat -> V) : per_segment (seg_starts coord).
Proof. intros s. unfold seg_starts, nseg. apply length_map. Qed.
Lemma per_segment_ends (coord : Sec -> nat -> V) : per_segment (seg_ends coord).
Proof. intros s. unfold seg_ends, nseg. apply length_map. Qed.
Lemma per_segment_areas : per_segment (V := V) seg_areas.
Proof. intros s. unfold seg_areas, nseg. apply length_map. Qed.
Lemma per_segment_diams : per_segment (V := V) seg_diams.
Proof. intros s. unfold seg_diams, nseg. apply length_map. Qed.
Lemma per_segment_lengths : per_segment (V := V) seg_lengths.
Proof. intros s. unfold seg_lengths, nseg. apply length_map. Qed.

Lemma traced_sections_app (l1 l2 : list Sec) :
  traced_sections (l1 ++ l2) = traced_sections l1 ++ traced_sections l2.
Proof. apply List.filter_app. Qed.

Lemma traced_segments_app (l1 l2 : list Sec) :
  traced_segments (l1 ++ l2) = traced_segments l1 + traced_segments l2.
Proof.
  unfold traced_segments. rewrite traced_sections_app, map_app.
  induction (map nseg (traced_sections l1)) as [|a t IH]; cbn; [reflexivity|].
  rewrite IH. lia.
Qed.

Lemma length_values (f : Sec -> list V) (l : list Sec) :
  per_segment f ->
  length (concat (map f (traced_sections l))) = traced_segments l.
Proof.
  intros Hf. unfold traced_segments.
  induction (traced_sections l) as [|s t IH]; cbn; [reflexivity|].
  rewrite length_app, Hf, IH. reflexivity.
Qed.

Lemma length_laid_out n (f : Sec -> list V) (l : list Sec) :
  per_segment f -> traced_segments l <= n -> length (laid_out n f l) = n.
Proof.
  intros Hf Hn. unfold laid_out. cbv zeta.
  rewrite length_app, length_replicate, (length_values f l Hf). lia.
Qed.


Lemma setslice_laid {A} (p v : list A) k z c :
  length p = c -> length v <= k ->
  setslice (p ++ replicate k z) c v = Ok ((p ++ v) ++ replicate (k - length v) z).
Proof.
  intros Hp Hv. unfold setslice. cbv zeta.
  rewrite length_app, length_replicate, Hp.
  replace (Nat.min c (c + k)) with c by lia.
  replace (Nat.min (c + length v) (c + k)) with (c + length v) by lia.
  replace (c + length v - c) with (length v) by lia.
  rewrite Nat.eqb_refl.
  rewrite take_app_length' by (symmetry; assumption).
  rewrite drop_app_add' by (symmetry; assumption).
  rewrite drop_replicate, <- app_assoc. reflexivity.
Qed.

Lemma setitem_laid {A} (p : list A) k z c x :
  length p = c -> 0 < k ->
  setitem (p ++ replicate k z) c x = Ok ((p ++ [x]) ++ replicate (k - 1) z).
Proof.
  intros Hp Hk. unfold setitem.
  rewrite length_app, length_replicate, Hp.
  destruct (Nat.ltb_spec c (c + k)) as [_|]; [|lia].
  rewrite insert_app_r_alt by lia. rewrite Hp, Nat.sub_diag.
  destruct k as [|k]; [lia|]. cbn. rewrite Nat.sub_0_r, <- app_assoc.
  reflexivity.
Qed.

Lemma fill_segments_laid (sec : Sec) (l : list Segment) :
  forall pa pd pl k xs xe ys ye zs ze c,
    length pa = c -> length pd = c -> length pl = c -> length l <= k ->
    fill_segments sec
      (mkGeomVecs (pa ++ replicate k vzero) (pd ++ replicate k vzero)
         (pl ++ replicate k vzero) xs xe ys ye zs ze c) l =
    Ok (mkGeomVecs
          ((pa ++ map seg_area l) ++ replicate (k - length l) vzero)
          ((pd ++ map seg_diam l) ++ replicate (k - length l) vzero)
          ((pl ++ map (fun _ => vdiv (sec_L sec) (vof_nat (nseg sec))) l)
             ++ replicate (k - length l) vzero)
          xs xe ys ye zs ze (c + length l)).
Proof.
  induction l as [|g l IH]; intros pa pd pl k xs xe ys ye zs ze c Ha Hd Hl Hk.
  - cbn. rewrite !app_nil_r, Nat.sub_0_r, Nat.add_0_r. reflexivity.
  - cbn [length] in Hk. cbn [fill_segments]. unfold fill_segment.
    cbn [areavec diamvec lengthvec counter xstartvec xendvec ystartvec
         yendvec zstartvec zendvec].
    rewrite !setitem_laid by (assumption || lia). cbn [obind].
    rewrite IH by (rewrite ?length_app; cbn; lia).
    cbn [map length]. rewrite <- !app_assoc. cbn [app].
    replace (k - 1 - length l) with (k - S (length l)) by lia.
    replace (S c + length l) with (c + S (length l)) by lia.
    reflexivity.
Qed.

Lemma fill_segments_overflow (sec : Sec) g seg (l : list Segment) :
  length (areavec g) <= counter g ->
  fill_segments sec g (seg :: l) = Raise IndexError.
Proof.
  intros Hc. cbn [fill_segments]. unfold fill_segment, setitem.
  destruct (Nat.ltb_spec (counter g) (length (areavec g))); [lia|].
  reflexivity.
Qed.

Lemma traced_snoc_yes (l : list Sec) sec :
  0 < n3d sec -> traced_sections (l ++ [sec]) = traced_sections l ++ [sec].
Proof.
  intros Hn. rewrite traced_sections_app. unfold traced_sections at 2.
  cbn [List.filter]. destruct (Nat.ltb_spec 0 (n3d sec)); [reflexivity|lia].
Qed.

Lemma traced_snoc_no (l : list Sec) sec :
  n3d sec = 0 -> traced_sections (l ++ [sec]) = traced_sections l.
Proof.
  intros Hn. rewrite traced_sections_app. unfold traced_sections at 2.
  cbn [List.filter]. rewrite Hn. cbn. apply app_nil_r.
Qed.

Lemma traced_segments_one (sec : Sec) :
  0 < n3d sec -> traced_segments [sec] = nseg sec.
Proof.
  intros Hn. unfold traced_segments, traced_sections. cbn [List.filter].
  destruct (Nat.ltb_spec 0 (n3d sec)); [|lia]. cbn. lia.
Qed.

Lemma laid_out_snoc n (f : Sec -> list V) (l : list Sec) sec :
  0 < n3d sec ->
  laid_out n f (l ++ [sec]) =
  (concat (map f (traced_sections l)) ++ f sec)
    ++ replicate (n - length (concat (map f (traced_sections l)))
                    - length (f sec)) vzero.
Proof.
  intros Hn. unfold laid_out. cbv zeta. rewrite (traced_snoc_yes l sec Hn).
  rewrite map_app, concat_app. cbn [map concat]. rewrite app_nil_r.
  rewrite length_app. f_equal. f_equal. lia.
Qed.

Lemma interp_starts (coord : Sec -> nat -> V) (sec : Sec) :
  map (fun s => vinterp s (trace_L sec) (map (coord sec) (seq 0 (n3d sec))))
    (map (fun s => vround6 (vsub s (gsen2 sec))) (map seg_x (segs sec))) =
  seg_starts coord sec.
Proof. unfold seg_starts. rewrite !map_map. reflexivity. Qed.

Lemma interp_ends (coord : Sec -> nat -> V) (sec : Sec) :
  map (fun s => vinterp s (trace_L sec) (map (coord sec) (seq 0 (n3d sec))))
    (map (fun s => vround6 (vadd s (gsen2 sec))) (map seg_x (segs sec))) =
  seg_ends coord sec.
Proof. unfold seg_ends. rewrite !map_map. reflexivity. Qed.

(** A traced section that fits is laid out after the ones before it. *)
Lemma collect_section_fits n (done : list Sec) sec :
  0 < n3d sec -> nseg sec <> 0 ->
  traced_segments done + nseg sec <= n ->
  collect_section (geom_of n done) sec = Ok (geom_of n (done ++ [sec])).
Proof.
  intros Hn Hs Hfit. unfold collect_section.
  destruct (Nat.eqb_spec (nseg sec) 0) as [|_]; [contradiction|].
  destruct (Nat.ltb_spec 0 (n3d sec)) as [_|]; [|lia].
  cbv zeta. fold (gsen2 sec). fold (trace_L sec).
  rewrite !interp_starts, !interp_ends.
  unfold geom_of.
  cbn [areavec diamvec lengthvec counter xstartvec xendvec ystartvec
       yendvec zstartvec zendvec].
  rewrite !(laid_out_snoc n _ done sec Hn).
  unfold laid_out. cbv zeta.
  pose proof (length_values _ done (per_segment_starts x3d)) as Lxs.
  pose proof (length_values _ done (per_segment_starts y3d)) as Lys.
  pose proof (length_values _ done (per_segment_starts z3d)) as Lzs.
  pose proof (length_values _ done (per_segment_ends x3d)) as Lxe.
  pose proof (length_values _ done (per_segment_ends y3d)) as Lye.
  pose proof (length_values _ done (per_segment_ends z3d)) as Lze.
  pose proof (length_values _ done per_segment_areas) as La.
  pose proof (length_values _ done per_segment_diams) as Ld.
  pose proof (length_values _ done per_segment_lengths) as Ll.
  pose proof (per_segment_starts x3d sec) as Sxs.
  pose proof (per_segment_starts y3d sec) as Sys.
  pose proof (per_segment_starts z3d sec) as Szs.
  pose proof (per_segment_ends x3d sec) as Sxe.
  pose proof (per_segment_ends y3d sec) as Sye.
  pose proof (per_segment_ends z3d sec) as Sze.
  rewrite La, Ld, Ll, Lxs, Lys, Lzs, Lxe, Lye, Lze.
  rewrite !setslice_laid by (assumption || lia). cbn [obind].
  rewrite fill_segments_laid by (assumption || (fold (nseg sec); lia)).
  fold (nseg sec). fold (seg_areas sec). fold (seg_diams sec).
  fold (seg_lengths sec).
  rewrite traced_segments_app, (traced_segments_one sec Hn).
  rewrite (per_segment_areas sec), (per_segment_diams sec),
    (per_segment_lengths sec), Sxs, Sys, Szs, Sxe, Sye, Sze.
  reflexivity.
Qed.

Lemma setslice_overflow_many {A} (a v : list A) c :
  c <= length a -> length a < c + length v -> 2 <= length v ->
  setslice a c v = Raise ValueError.
Proof.
  intros Hc Hv H2. unfold setslice. cbv zeta.
  replace (Nat.min c (length a)) with c by lia.
  replace (Nat.min (c + length v) (length a)) with (length a) by lia.
  destruct (Nat.eqb_spec (length a - c) (length v)) as [E|_]; [lia|].
  destruct v as [|x [|y v]]; cbn in H2; try lia. reflexivity.
Qed.

Lemma setslice_overflow_one' {A} (a : list A) c x :
  c = length a -> setslice a c [x] = Ok a.
Proof.
  intros ->. unfold setslice. cbv zeta. cbn [length].
  replace (Nat.min (length a) (length a)) with (length a) by lia.
  replace (Nat.min (length a + 1) (length a)) with (length a) by lia.
  rewrite Nat.sub_diag. cbn. rewrite firstn_all, skipn_all, app_nil_r.
  reflexivity.
Qed.

Lemma collect_section_zero (g : GeomVecs) (sec : Sec) :
  nseg sec = 0 -> collect_section g sec = Raise ZeroDivisionError.
Proof. intros E. unfold collect_section. rewrite E. reflexivity. Qed.

Lemma geom_of_snoc_untraced n (done : list Sec) sec :
  n3d sec = 0 -> geom_of n (done ++ [sec]) = geom_of n done.
Proof.
  intros E. unfold geom_of, laid_out, traced_segments. cbv zeta.
  rewrite (traced_snoc_no done sec E). reflexivity.
Qed.

(** A traced section that does not fit in what is left of the vectors
    raises: ValueError from the first slice assignment when it has
    several segments, IndexError from [areavec[counter]] when it has
    one. *)
Lemma collect_section_overflow n (done : list Sec) sec :
  0 < n3d sec -> nseg sec <> 0 ->
  traced_segments done <= n -> n < traced_segments done + nseg sec ->
  collect_section (geom_of n done) sec =
  Raise (if nseg sec =? 1 then IndexError else ValueError).
Proof.
  intros Hn Hs Hdone Hover. unfold collect_section.
  destruct (Nat.eqb_spec (nseg sec) 0) as [|_]; [contradiction|].
  destruct (Nat.ltb_spec 0 (n3d sec)) as [_|]; [|lia].
  cbv zeta. fold (gsen2 sec). fold (trace_L sec).
  rewrite !interp_starts, !interp_ends.
  pose proof (length_laid_out n _ done (per_segment_starts x3d) Hdone) as Lxs.
  pose proof (length_laid_out n _ done (per_segment_starts y3d) Hdone) as Lys.
  pose proof (length_laid_out n _ done (per_segment_starts z3d) Hdone) as Lzs.
  pose proof (length_laid_out n _ done (per_segment_ends x3d) Hdone) as Lxe.
  pose proof (length_laid_out n _ done (per_segment_ends y3d) Hdone) as Lye.
  pose proof (length_laid_out n _ done (per_segment_ends z3d) Hdone) as Lze.
  pose proof (length_laid_out n _ done per_segment_areas Hdone) as La.
  unfold geom_of.
  cbn [areavec diamvec lengthvec counter xstartvec xendvec ystartvec
       yendvec zstartvec zendvec].
  destruct (Nat.eqb_spec (nseg sec) 1) as [E1|E1].
  - assert (Ec : traced_segments done = n) by lia.
    unfold nseg in E1.
    destruct (segs sec) as [|g [|g' t]] eqn:Es; cbn in E1; try lia.
    assert (Hst : forall coord, exists x, seg_starts coord sec = [x])
      by (intros; unfold seg_starts; rewrite Es; eexists; reflexivity).
    assert (Hen : forall coord, exists x, seg_ends coord sec = [x])
      by (intros; unfold seg_ends; rewrite Es; eexists; reflexivity).
    destruct (Hst x3d) as [? ->]. destruct (Hst y3d) as [? ->].
    destruct (Hst z3d) as [? ->]. destruct (Hen x3d) as [? ->].
    destruct (Hen y3d) as [? ->]. destruct (Hen z3d) as [? ->].
    rewrite !setslice_overflow_one'
      by (rewrite ?Lxs, ?Lxe, ?Lys, ?Lye, ?Lzs, ?Lze; exact Ec).
    cbn [obind].
    apply fill_segments_overflow. cbn [areavec counter]. lia.
  - rewrite setslice_overflow_many;
      rewrite ?Lxs, ?(per_segment_starts x3d sec); [reflexivity|lia..].
Qed.

Lemma geom_init_of n : geom_init n = geom_of (V := V) n [].
Proof.
  unfold geom_init, geom_of, laid_out. cbn. rewrite Nat.sub_0_r. reflexivity.
Qed.

Lemma collect_sections_fit n (l : list Sec) :
  forall done,
    Forall (fun s => nseg s <> 0) l ->
    traced_segments (done ++ l) <= n ->
    collect_sections (geom_of n done) l = Ok (geom_of n (done ++ l)).
Proof.
  induction l as [|sec l IH]; intros done Hs Hfit.
  - rewrite app_nil_r. reflexivity.
  - apply Forall_cons in Hs as [Hsec Hs].
    replace (done ++ sec :: l) with ((done ++ [sec]) ++ l) in *
      by (rewrite <- app_assoc; reflexivity).
    cbn [collect_sections].
    destruct (Nat.eq_dec (n3d sec) 0) as [E|E].
    + rewrite collect_section_untraced by assumption. cbn [obind].
      rewrite <- (geom_of_snoc_untraced n done sec E). apply IH; assumption.
    + assert (Hn : 0 < n3d sec) by lia.
      rewrite collect_section_fits; [|assumption..|].
      * cbn [obind]. apply IH; assumption.
      * rewrite traced_segments_app, traced_segments_app,
          (traced_segments_one sec Hn) in Hfit. lia.
Qed.

Lemma collect_sections_unfit n (l : list Sec) :
  forall done,
    traced_segments done <= n ->
    ~ (Forall (fun s => nseg s <> 0) l /\ traced_segments (done ++ l) <= n) ->
    exists e, collect_sections (geom_of n done) l = Raise e /\ geometry_exn e.
Proof.
  induction l as [|sec l IH]; intros done Hdone Hno.
  - exfalso. apply Hno. rewrite app_nil_r. split; [constructor|assumption].
  - replace (done ++ sec :: l) with ((done ++ [sec]) ++ l) in *
      by (rewrite <- app_assoc; reflexivity).
    cbn [collect_sections].
    destruct (Nat.eq_dec (nseg sec) 0) as [Z|Z].
    { rewrite collect_section_zero by assumption.
      exists ZeroDivisionError. split; [reflexivity|left; reflexivity]. }
    destruct (Nat.eq_dec (n3d sec) 0) as [E|E].
    + rewrite collect_section_untraced by assumption. cbn [obind].
      rewrite <- (geom_of_snoc_untraced n done sec E).
      apply IH.
      * rewrite traced_segments_app.
        unfold traced_segments at 2, traced_sections.
        cbn [List.filter]. rewrite E. cbn. lia.
      * intros [Hs Hfit]. apply Hno. split; [constructor|]; assumption.
    + assert (Hn : 0 < n3d sec) by lia.
      destruct (le_lt_dec (traced_segments done + nseg sec) n) as [Hle|Hgt].
      * rewrite collect_section_fits by assumption. cbn [obind].
        apply IH.
        -- rewrite traced_segments_app, (traced_segments_one sec Hn).
           assumption.
        -- intros [Hs Hfit]. apply Hno. split; [constructor|]; assumption.
      * rewrite collect_section_overflow by assumption. cbn [obind].
        eexists. split; [reflexivity|].
        destruct (nseg sec =? 1); [right; right|right; left]; reflexivity.
Qed.

(** X1.  When every section has a segment and the segments of the
    traced sections fit in [totnsegs] entries, the extractor succeeds and
    stores, in each of the nine vectors, the values of the traced
    sections' segments in iteration order, followed by zeros. *)
Theorem geometry_is_laid_out_in_iteration_order (c : Cell) :
  Forall (fun s => nseg s <> 0) (allseclist c) ->
  traced_segments (allseclist c) <= totnsegs c ->
  geometry_result (_collect_geometry_neuron c) = Ok (expected_geometry c).
Proof.
  intros Hs Hfit. unfold _collect_geometry_neuron.
  rewrite geom_init_of.
  rewrite collect_sections_fit by assumption. reflexivity.
Qed.

(** X2.  Otherwise it raises, and the cell keeps the attributes it had:
    a section without segments is a ZeroDivisionError, segments beyond
    [totnsegs] are a ValueError or an IndexError.  Nothing is truncated. *)
Theorem geometry_never_truncates (c : Cell) :
  ~ (Forall (fun s => nseg s <> 0) (allseclist c) /\
     traced_segments (allseclist c) <= totnsegs c) ->
  exists e, _collect_geometry_neuron c = Raise e /\ geometry_exn e.
Proof.
  intros Hno. unfold _collect_geometry_neuron.
  rewrite geom_init_of.
  destruct (collect_sections_unfit (totnsegs c) (allseclist c) [])
    as [e [E He]]; [cbn; lia|assumption|].
  rewrite E. exists e. split; [reflexivity|assumption].
Qed.

End GeometryProperties.

(** * File and dataset names *)

Lemma append_cons (c : ascii) (s t : string) :
  (String c s ++ t)%string = String c (s ++ t)%string.
Proof. reflexivity. Qed.

Lemma has_dot_app (s t : string) :
  has_dot (s ++ t)%string = has_dot s || has_dot t.
Proof.
  induction s as [|c s IH]; [reflexivity|].
  rewrite append_cons. cbn [has_dot].
  destruct (Ascii.eqb c "."); [reflexivity | exact IH].
Qed.

Lemma after_last_dot_h5 (s : string) :
  after_last_dot (s ++ ".h5")%string = "h5"%string.
Proof.
  induction s as [|c s IH]; [reflexivity|].
  rewrite append_cons. cbn [after_last_dot].
  rewrite has_dot_app. cbn [has_dot]. cbn [Ascii.eqb Bool.eqb].
  rewrite orb_true_r. exact IH.
Qed.


(** X4.  The names ['electrode{:03d}'.format(i)] of the datasets are
    pairwise different, also from 1000 on where the number takes more
    than three digits: no two coefficient matrices share a dataset. *)
Theorem dataset_names_are_distinct (i j : nat) :
  dataset_name i = dataset_name j <-> i = j.
Proof.
  split; [apply dataset_name_inj | intros ->; reflexivity].
Qed.

(** * What a run leaves alone *)

Section FrameProperties.
Context {V : Type} {FO : FloatOps V} {D Conf : Type}
        {EN : @Engine V D} {PR : @Probe V Conf}.
Local Open Scope run_scope.
Local Abbreviation World := (@World V D Conf).
Local Abbreviation M := (@M V D Conf).
Local Abbreviation Res := (@Res V D Conf).
Local Abbreviation Cell := (@Cell V).
Local Abbreviation keeps := (@keeps V D Conf _).
Local Abbreviation Composable := (@Composable V D Conf).

Lemma keeps_bind R {HR : Composable R} {A B} (m : M A) (k : A -> M B) :
  keeps R m -> (forall a, keeps R (k a)) -> keeps R (bind m k).
Proof.
  intros Hm Hk w. unfold bind. cbv beta zeta.
  generalize (Hm w). destruct (m w) as [v w1 o]. cbn [r_val r_world r_out].
  intros H1. destruct v as [a|e]; cbn [r_val r_world r_out]; [|exact H1].
  eapply comp_trans; [exact H1 | apply Hk].
Qed.

Lemma keeps_ret R {HR : Composable R} {A} (a : A) : keeps R (ret a : M A).
Proof. intros w. apply comp_refl. Qed.
Lemma keeps_raise R {HR : Composable R} {A} e : keeps R (@raise V D Conf A e).
Proof. intros w. apply comp_refl. Qed.
Lemma keeps_lift R {HR : Composable R} {A} (o : outcome A) :
  keeps R (lift o : M A).
Proof. intros w. apply comp_refl. Qed.
Lemma keeps_get_cell R {HR : Composable R} : keeps R (get_cell : M _).
Proof. intros w. apply comp_refl. Qed.
Lemma keeps_get_nrn R {HR : Composable R} : keeps R (get_nrn : M _).
Proof. intros w. apply comp_refl. Qed.
Lemma keeps_get_heap R {HR : Composable R} : keeps R (get_heap : M _).
Proof. intros w. apply comp_refl. Qed.
Lemma keeps_get_fs R {HR : Composable R} : keeps R (get_fs : M _).
Proof. intros w. apply comp_refl. Qed.
Lemma keeps_get_bufs R {HR : Composable R} : keeps R (get_bufs : M _).
Proof. intros w. apply comp_refl. Qed.

Lemma keeps_try_pass R (m : M unit) : keeps R m -> keeps R (try_pass m).
Proof. intros Hm w. exact (Hm w). Qed.

Lemma keeps_when R {HR : Composable R} b (m : M unit) :
  keeps R m -> keeps R (when b m).
Proof. destruct b; cbn; [trivial | intros _; apply keeps_ret; exact HR]. Qed.

Lemma keeps_foldM R {HR : Composable R} {A S} (f : S -> A -> M S) l :
  (forall s a, keeps R (f s a)) -> forall s, keeps R (foldM f s l).
Proof.
  intros Hf. induction l as [|a l IH]; intros s; cbn.
  - apply keeps_ret; exact HR.
  - apply keeps_bind; [exact HR | apply Hf | exact IH].
Qed.

Create HintDb keep discriminated.
Hint Resolve keeps_ret keeps_raise keeps_lift keeps_get_cell keeps_get_nrn
  keeps_get_heap keeps_get_fs keeps_get_bufs : keep.

Ltac keeps_step :=
  match goal with
  | |- keeps _ (bind _ _) => apply keeps_bind; [typeclasses eauto| |intros]
  | |- keeps _ (when _ _) => apply keeps_when; [typeclasses eauto|]
  | |- keeps _ (try_pass _) => apply keeps_try_pass
  | |- keeps _ (foldM _ _ _) => apply keeps_foldM; [typeclasses eauto|intros]
  | |- keeps _ (match ?x with _ => _ end) => destruct x
  | |- keeps _ _ => solve [auto with keep typeclass_instances]
  end.
Ltac keeps_auto := repeat keeps_step.

(** ** [_run_simulation] moves the engine and nothing else *)

#[export] Instance engine_only_composable : Composable engine_only.
Proof.
  split.
  - intros w. unfold engine_only. repeat split; reflexivity.
  - intros w1 w2 w3 o1 o2 H1 H2. unfold engine_only in *.
    destruct H1 as (Ec & Eh & Ef & Eb & Ed & Ea & Et & Eo).
    destruct H2 as (Ec' & Eh' & Ef' & Eb' & Ed' & Ea' & Et' & Eo').
    repeat split; try congruence.
    intros Hv. rewrite Eo by exact Hv. rewrite Eo'; [reflexivity|congruence].
Qed.

Lemma engine_only_fadvance : keeps engine_only (fadvance : M _).
Proof.
  intros w. unfold fadvance, bind, get_nrn, set_nrn. cbn.
  unfold engine_only. cbn. repeat split; reflexivity.
Qed.

Lemma engine_only_report_progress k interval ti :
  keeps engine_only (report_progress k interval ti : M _).
Proof.
  intros w. unfold report_progress.
  destruct (is_multiple _ _); [|apply comp_refl].
  unfold bind, get_cell, get_nrn, when, print, ret. cbn.
  destruct (verbose (cell w)) eqn:Hv; cbn; unfold engine_only; cbn;
    repeat split; congruence.
Qed.

Hint Resolve engine_only_fadvance engine_only_report_progress : keep.

Lemma engine_only_plain_loop fuel :
  forall interval k ti, keeps engine_only (plain_loop fuel interval k ti : M _).
Proof.
  induction fuel as [|fuel IH]; intros interval k ti; cbn [plain_loop].
  - keeps_auto.
  - keeps_auto.
Qed.

(** The state [_run_simulation] reaches is the initialised engine moved
    by the loop. *)
Lemma run_simulation_from_init fuel vdt atol (w : World) :
  exists w0 m,
    nrn w0 = init_engine (cell w) vdt atol (nrn w) /\
    cell w0 = cell w /\ heap w0 = heap w /\ fs w0 = fs w /\ bufs w0 = bufs w /\
    keeps engine_only (m : M unit) /\
    r_world (_run_simulation fuel vdt atol w) = r_world (m w0) /\
    r_out (_run_simulation fuel vdt atol w) = r_out (m w0).
Proof.
  exists (with_nrn w (init_engine (cell w) vdt atol (nrn w))).
  exists (interval <- lift (progress_interval (cell w)) ;;
          plain_loop fuel interval 0
            (h_t (init_engine (cell w) vdt atol (nrn w)))).
  do 5 (split; [reflexivity|]). split; [|split].
  - keeps_auto. apply engine_only_plain_loop.
  - unfold _run_simulation, bind at 1 2 3 4, get_cell, get_nrn, set_nrn,
      adaptive_plain. cbn [r_val r_world r_out with_nrn nrn cell].
    match goal with |- context [bind ?m ?k ?w0] =>
      destruct (bind m k w0) as [v' w' o'] end. reflexivity.
  - unfold _run_simulation, bind at 1 2 3 4, get_cell, get_nrn, set_nrn,
      adaptive_plain. cbn [r_val r_world r_out with_nrn nrn cell app].
    match goal with |- context [bind ?m ?k ?w0] =>
      destruct (bind m k w0) as [v' w' o'] end. reflexivity.
Qed.

Lemma init_engine_setup (c : Cell) (adaptive : bool) atol (n : Neuron) :
  h_dt (init_engine c adaptive atol n) = timeres_NEURON c /\
  cvode_active (init_engine c adaptive atol n) = adaptive /\
  cvode_atol (init_engine c adaptive atol n) =
    (if adaptive then atol else cvode_atol n) /\
  h_t (init_engine c adaptive atol n) = tstartms c.
Proof. unfold init_engine. destruct adaptive; cbn; repeat split. Qed.



End FrameProperties.

Create HintDb keep discriminated.
#[global] Hint Resolve keeps_ret keeps_raise keeps_lift keeps_get_cell
  keeps_get_nrn keeps_get_heap keeps_get_fs keeps_get_bufs
  engine_only_fadvance engine_only_report_progress : keep.

Ltac keeps_step :=
  match goal with
  | |- keeps _ (bind _ _) => apply keeps_bind; [typeclasses eauto| |intros]
  | |- keeps _ (when _ _) => apply keeps_when; [typeclasses eauto|]
  | |- keeps _ (try_pass _) => apply keeps_try_pass
  | |- keeps _ (foldM _ _ _) => apply keeps_foldM; [typeclasses eauto|intros]
  | |- keeps _ (match ?x with _ => _ end) => destruct x
  | |- keeps _ _ => solve [auto with keep typeclass_instances]
  end.
Ltac keeps_auto := repeat keeps_step.

(** * The time loop of [_run_simulation] *)

Section PlainLoop.
Context {V : Type} {FO : FloatOps V} {D Conf : Type}
        {EN : @Engine V D} {PR : @Probe V Conf}.
Local Open Scope run_scope.
Local Abbreviation World := (@World V D Conf).
Local Abbreviation M := (@M V D Conf).
Local Abbreviation Res := (@Res V D Conf).
Local Abbreviation Cell := (@Cell V).

Lemma bind_get_cell {B} (k : Cell -> M B) (w : World) :
  bind get_cell k w = k (cell w) w.
Proof. unfold bind, get_cell. cbn. apply res_eta. Qed.

Lemma bind_get_nrn {B} (k : Neuron -> M B) (w : World) :
  bind get_nrn k w = k (nrn w) w.
Proof. unfold bind, get_nrn. cbn. apply res_eta. Qed.

Lemma bind_get_heap {B} (k : Heap -> M B) (w : World) :
  bind get_heap k w = k (heap w) w.
Proof. unfold bind, get_heap. cbn. apply res_eta. Qed.

Lemma bind_get_bufs {B} (k : list (ndarray V) -> M B) (w : World) :
  bind get_bufs k w = k (bufs w) w.
Proof. unfold bind, get_bufs. cbn. apply res_eta. Qed.

Lemma bind_get_fs {B} (k : gmap string H5File -> M B) (w : World) :
  bind get_fs k w = k (fs w) w.
Proof. unfold bind, get_fs. cbn. apply res_eta. Qed.

Lemma bind_set_nrn {B} n (k : unit -> M B) (w : World) :
  bind (set_nrn n) k w = k tt (with_nrn w n).
Proof. unfold bind, set_nrn. cbn. apply res_eta. Qed.

Lemma bind_set_cell {B} c (k : unit -> M B) (w : World) :
  bind (set_cell c) k w = k tt (with_cell w c).
Proof. unfold bind, set_cell. cbn. apply res_eta. Qed.

Lemma bind_set_heap {B} h (k : unit -> M B) (w : World) :
  bind (set_heap h) k w = k tt (with_heap w h).
Proof. unfold bind, set_heap. cbn. apply res_eta. Qed.

Lemma bind_set_bufs {B} b (k : unit -> M B) (w : World) :
  bind (set_bufs b) k w = k tt (with_bufs w b).
Proof. unfold bind, set_bufs. cbn. apply res_eta. Qed.

Lemma bind_set_fs {B} f (k : unit -> M B) (w : World) :
  bind (set_fs f) k w = k tt (with_fs w f).
Proof. unfold bind, set_fs. cbn. apply res_eta. Qed.

Lemma bind_lift_ok {A B} (a : A) (k : A -> M B) (w : World) :
  bind (lift (Ok a)) k w = k a w.
Proof. unfold bind, lift. cbn. apply res_eta. Qed.

Lemma bind_lift_raise {A B} e (k : A -> M B) (w : World) :
  bind (lift (Raise e)) k w = mkRes (Raise e) w [].
Proof. reflexivity. Qed.

Lemma bind_raise_l {A B} e (k : A -> M B) (w : World) :
  bind (raise e) k w = mkRes (Raise e) w [].
Proof. reflexivity. Qed.

Lemma Qltb_lt (a b : Q) : Qltb a b = true <-> (a < b)%Q.
Proof.
  unfold Qltb. rewrite negb_true_iff.
  destruct (Qle_bool b a) eqn:E.
  - apply Qle_bool_iff in E. split; [discriminate|].
    intros H. exfalso. exact (Qlt_not_le _ _ H E).
  - split; [|reflexivity]. intros _. apply Qnot_le_lt. intros H.
    apply Qle_bool_iff in H. congruence.
Qed.

Lemma Qltb_ge (a b : Q) : Qltb a b = false <-> (b <= a)%Q.
Proof.
  unfold Qltb. rewrite negb_false_iff. apply Qle_bool_iff.
Qed.

Lemma report_progress_world k interval ti (w : World) :
  r_world (report_progress k interval ti w) = w /\
  exists t, r_val (report_progress k interval ti w) = Ok t.
Proof.
  unfold report_progress. destruct (is_multiple _ _).
  - rewrite bind_get_cell, bind_get_nrn.
    destruct (verbose (cell w)); cbn; split; eauto.
  - cbn. split; eauto.
Qed.

Lemma plain_loop_step fuel interval k ti (w : World) :
  Qltb (h_t (nrn w)) (tstopms (cell w)) = true ->
  let w1 := with_nrn w (nrn_set_t_dyn (nrn w) (e_fadvance (nrn w))) in
  exists t,
    r_val (plain_loop (S fuel) interval k ti w) =
      r_val (plain_loop fuel interval (S k) t w1) /\
    r_world (plain_loop (S fuel) interval k ti w) =
      r_world (plain_loop fuel interval (S k) t w1).
Proof.
  intros Hlt. cbv zeta. cbn [plain_loop].
  rewrite bind_get_cell, bind_get_nrn, Hlt.
  unfold fadvance. rewrite bind_ok with (a := tt)
    by (rewrite bind_get_nrn; reflexivity).
  rewrite bind_get_nrn. cbn [set_nrn r_val r_world r_out].
  set (w1 := with_nrn w _).
  destruct (report_progress_world (S k) interval ti w1) as [Ew [t Ev]].
  exists t. rewrite (bind_ok _ _ _ _ Ev). cbn [r_val r_world]. rewrite Ew.
  split; reflexivity.
Qed.

Lemma plain_loop_stop fuel interval k ti (w : World) :
  Qltb (h_t (nrn w)) (tstopms (cell w)) = false ->
  plain_loop fuel interval k ti w = mkRes (Ok tt) w [].
Proof.
  intros Hge. destruct fuel; cbn [plain_loop];
    rewrite bind_get_cell, bind_get_nrn, Hge; reflexivity.
Qed.

(** *** Arithmetic of the step count *)

Lemma ratio_times_step (c : Cell) :
  (0 < timeres_NEURON c)%Q ->
  ((tstopms c - tstartms c) / timeres_NEURON c * timeres_NEURON c
   == tstopms c - tstartms c)%Q.
Proof.
  intros Hdt. field. intros E. rewrite E in Hdt. exact (Qlt_irrefl 0 Hdt).
Qed.

Lemma before_stop (c : Cell) i :
  (0 < timeres_NEURON c)%Q -> i < steps_to_stop c ->
  (time_after c i < tstopms c)%Q.
Proof.
  intros Hdt Hi. unfold steps_to_stop in Hi. unfold time_after.
  set (x := ((tstopms c - tstartms c) / timeres_NEURON c)%Q) in *.
  assert (Hz : (Z.of_nat i <= Qceiling x - 1)%Z) by lia.
  assert (Hx : (inject_Z (Z.of_nat i) < x)%Q).
  { eapply Qle_lt_trans; [|apply Qceiling_lt].
    rewrite <- Zle_Qle. exact Hz. }
  assert (Hm : (inject_Z (Z.of_nat i) * timeres_NEURON c
                < tstopms c - tstartms c)%Q).
  { rewrite <- (ratio_times_step c Hdt). fold x.
    apply Qmult_lt_compat_r; assumption. }
  apply (Qplus_lt_r _ _ (tstartms c)) in Hm.
  eapply Qlt_le_trans; [exact Hm|]. ring_simplify. apply Qle_refl.
Qed.

Lemma at_stop (c : Cell) :
  (0 < timeres_NEURON c)%Q ->
  (tstopms c <= time_after c (steps_to_stop c))%Q.
Proof.
  intros Hdt. unfold steps_to_stop, time_after.
  set (x := ((tstopms c - tstartms c) / timeres_NEURON c)%Q).
  assert (Hx : (x <= inject_Z (Z.of_nat (Z.to_nat (Qceiling x))))%Q).
  { eapply Qle_trans; [apply Qle_ceiling|]. rewrite <- Zle_Qle. lia. }
  assert (Hm : (tstopms c - tstartms c
                <= inject_Z (Z.of_nat (Z.to_nat (Qceiling x)))
                   * timeres_NEURON c)%Q).
  { rewrite <- (ratio_times_step c Hdt). fold x.
    apply Qmult_le_compat_r; [exact Hx | apply Qlt_le_weak, Hdt]. }
  apply (Qplus_le_r _ _ (tstartms c)) in Hm.
  eapply Qle_trans; [|exact Hm]. ring_simplify. apply Qle_refl.
Qed.

Lemma time_after_succ (c : Cell) i :
  (time_after c (S i) == time_after c i + timeres_NEURON c)%Q.
Proof.
  unfold time_after. rewrite Nat2Z.inj_succ, <- Z.add_1_r, inject_Z_plus.
  ring.
Qed.

(** The loop from step [i] on: with the steps that are left as fuel it
    ends normally, at the time after [steps_to_stop] steps. *)
Lemma plain_loop_reaches_stop :
  steps_by_dt EN ->
  forall fuel interval k ti i (w : World),
    (0 < timeres_NEURON (cell w))%Q ->
    h_dt (nrn w) = timeres_NEURON (cell w) ->
    (h_t (nrn w) == time_after (cell w) i)%Q ->
    i <= steps_to_stop (cell w) ->
    steps_to_stop (cell w) - i <= fuel ->
    let r := plain_loop fuel interval k ti w in
    r_val r = Ok tt /\ cell (r_world r) = cell w /\
    (h_t (nrn (r_world r)) == time_after (cell w) (steps_to_stop (cell w)))%Q.
Proof.
  intros Hstep. induction fuel as [|fuel IH];
    intros interval k ti i w Hdt Hd Ht Hi Hfuel; cbv zeta.
  - assert (i = steps_to_stop (cell w)) by lia. subst i.
    rewrite plain_loop_stop.
    + cbn. repeat split. exact Ht.
    + apply Qltb_ge. rewrite Ht. apply at_stop, Hdt.
  - destruct (Nat.eq_dec i (steps_to_stop (cell w))) as [E|E].
    + subst i. rewrite plain_loop_stop.
      * cbn. repeat split. exact Ht.
      * apply Qltb_ge. rewrite Ht. apply at_stop, Hdt.
    + assert (Hlt : Qltb (h_t (nrn w)) (tstopms (cell w)) = true).
      { apply Qltb_lt. rewrite Ht. apply before_stop; [exact Hdt | lia]. }
      destruct (plain_loop_step fuel interval k ti w Hlt) as [t [Ev Ew]].
      rewrite Ev, Ew.
      set (w1 := with_nrn w _).
      assert (Hc : cell w1 = cell w) by reflexivity.
      specialize (IH interval (S k) t (S i) w1).
      rewrite Hc in IH. apply IH.
      * exact Hdt.
      * exact Hd.
      * cbn. rewrite (Hstep (nrn w)), Ht, Hd. symmetry. apply time_after_succ.
      * lia.
      * lia.
Qed.


(** X8.  A step of zero is not rejected up front: the engine is
    initialised with [h.dt = 0], and the computation of the progress
    interval ([1 / cell.timeres_NEURON]) then raises ZeroDivisionError
    before any [fadvance]. *)
Theorem run_simulation_zero_step fuel vdt atol (w : World) :
  (timeres_NEURON (cell w) == 0)%Q ->
  _run_simulation fuel vdt atol w =
  mkRes (Raise ZeroDivisionError)
    (with_nrn w (init_engine (cell w) vdt atol (nrn w))) [].
Proof.
  intros Hz. unfold _run_simulation.
  rewrite bind_get_cell, bind_get_nrn, bind_set_nrn, bind_get_nrn.
  unfold progress_interval, pydiv.
  apply Qeq_bool_iff in Hz. rewrite Hz. reflexivity.
Qed.

End PlainLoop.

(** * The current sample *)

Section SampleProperties.
Context {V : Type} {FO : FloatOps V} {D Conf : Type}
        {EN : @Engine V D} {PR : @Probe V Conf}.
Local Open Scope run_scope.
Local Abbreviation World := (@World V D Conf).
Local Abbreviation M := (@M V D Conf).
Local Abbreviation Res := (@Res V D Conf).
Local Abbreviation Cell := (@Cell V).
Local Abbreviation keeps := (@keeps V D Conf _).
Local Abbreviation sinks_only := (@sinks_only V D Conf).
Local Abbreviation cell_and_store_kept := (@cell_and_store_kept V D Conf).

Lemma read_imem_fills (n : Neuron) idx :
  forall i (buf : list (option V)),
    i + length idx <= length buf ->
    read_imem n idx i buf =
    Ok (take i buf
          ++ map (fun sg => Some (e_i_membrane n (fst sg) (snd sg))) idx
          ++ drop (i + length idx) buf).
Proof.
  induction idx as [|[s g] idx IH]; intros i buf Hlen.
  - cbn. rewrite Nat.add_0_r, take_drop. reflexivity.
  - cbn [length] in Hlen. cbn [read_imem]. unfold setitem.
    destruct (Nat.ltb_spec i (length buf)) as [Hi|]; [|lia].
    cbn [obind]. rewrite IH by (rewrite length_insert; lia).
    rewrite (take_S_r _ _ (Some (e_i_membrane n s g)))
      by (apply list_lookup_insert_eq; exact Hi).
    rewrite take_insert_ge by lia.
    rewrite drop_insert_lt by lia.
    cbn [map fst snd length]. rewrite <- app_assoc. cbn [app].
    replace (S i + length idx) with (i + S (length idx)) by lia.
    reflexivity.
Qed.

(** The vector of one step: every entry of the reused buffer is
    overwritten, and the product with the scaled areas is taken entry by
    entry. *)
Lemma sample_imem_is_current_sample (n : Neuron) (c : Cell) a buf :
  segments_agree c a -> length buf = totnsegs c ->
  sample_imem n c (scaled_area a) buf = Ok (current_sample n c a).
Proof.
  intros (_ & Ha & Hs) Hb. unfold sample_imem.
  rewrite read_imem_fills by lia. cbn [obind].
  rewrite take_0. cbn [app].
  rewrite Nat.add_0_l, drop_ge, app_nil_r by lia.
  unfold imul, scaled_area. rewrite !length_map.
  destruct (Nat.eqb_spec (length a) (length (seg_index (allseclist c))))
    as [_|]; [|lia].
  f_equal. unfold current_sample, densities.
  rewrite zip_with_fmap_l, zip_with_fmap_r.
  rewrite (zip_with_fmap_l _ _ (seg_index (allseclist c)) a).
  reflexivity.
Qed.

Lemma length_current_sample (n : Neuron) (c : Cell) a :
  segments_agree c a -> length (current_sample n c a) = totnsegs c.
Proof.
  intros (_ & Ha & Hs). unfold current_sample, densities.
  rewrite length_zip_with, length_map. lia.
Qed.

(** ** What the sampling code leaves alone *)

#[export] Instance sinks_only_composable : Composable sinks_only.
Proof.
  split.
  - intros w. unfold sinks_only. repeat split; reflexivity.
  - intros w1 w2 w3 o1 o2 (Ec & En & Eh & Eo) (Ec' & En' & Eh' & Eo').
    unfold sinks_only. subst o1 o2. repeat split; congruence.
Qed.

#[export] Instance cell_and_store_kept_composable : Composable cell_and_store_kept.
Proof.
  split.
  - intros w. split; reflexivity.
  - intros w1 w2 w3 o1 o2 (Ec & Eh) (Ec' & Eh'). split; congruence.
Qed.

Lemma keeps_weaken {A} (R R' : World -> World -> list Msg -> Prop) (m : M A) :
  (forall w w' o, R w w' o -> R' w w' o) -> keeps R m -> keeps R' m.
Proof. intros H Hm w. apply H, Hm. Qed.

Lemma sinks_only_kept w w' o : sinks_only w w' o -> cell_and_store_kept w w' o.
Proof. intros (Ec & _ & Eh & _). split; assumption. Qed.

Lemma engine_only_kept (w w' : World) o :
  engine_only w w' o -> cell_and_store_kept w w' o.
Proof. intros (Ec & Eh & _). split; assumption. Qed.

Lemma sinks_only_set_bufs b : keeps sinks_only (set_bufs b : M _).
Proof. intros w. repeat split. Qed.
Lemma sinks_only_set_fs f : keeps sinks_only (set_fs f : M _).
Proof. intros w. repeat split. Qed.
#[local] Hint Resolve sinks_only_set_bufs sinks_only_set_fs : keep.

Lemma sinks_only_get_file fn : keeps sinks_only (get_file fn : M _).
Proof. unfold get_file. keeps_auto. Qed.
Lemma sinks_only_put_file fn x : keeps sinks_only (put_file fn x : M _).
Proof. unfold put_file. keeps_auto. Qed.
#[local] Hint Resolve sinks_only_get_file sinks_only_put_file : keep.

Lemma sinks_only_write_column fn name k v :
  keeps sinks_only (write_column fn name k v : M _).
Proof. unfold write_column. keeps_auto. Qed.
Lemma sinks_only_create_dataset fn name a :
  keeps sinks_only (create_dataset fn name a : M _).
Proof. unfold create_dataset. keeps_auto. Qed.
#[local] Hint Resolve sinks_only_write_column sinks_only_create_dataset : keep.

Lemma sinks_only_deposit_memory cs :
  forall j v k, keeps sinks_only (deposit_memory j cs v k : M _).
Proof. induction cs as [|c cs IH]; intros j v k; cbn; keeps_auto. Qed.
Lemma sinks_only_deposit_file fn cs :
  forall j v k, keeps sinks_only (deposit_file fn j cs v k : M _).
Proof. induction cs as [|c cs IH]; intros j v k; cbn; keeps_auto. Qed.
#[local] Hint Resolve sinks_only_deposit_memory sinks_only_deposit_file : keep.

Lemma sinks_only_sample_and_deposit cs a tm file st :
  keeps sinks_only (sample_and_deposit cs a tm file st : M _).
Proof. unfold sample_and_deposit. keeps_auto. Qed.
Lemma sinks_only_deposit_current_sample cs a tm file k :
  keeps sinks_only (deposit_current_sample cs a tm file k : M _).
Proof. unfold deposit_current_sample. keeps_auto. Qed.
#[local] Hint Resolve sinks_only_sample_and_deposit
  sinks_only_deposit_current_sample : keep.

(** ** The sampling step and the loop *)

Lemma bind_ext_keeps {A B} (R : World -> World -> list Msg -> Prop)
    (m : M A) (k k' : A -> M B) (w : World) :
  keeps R m ->
  (forall a w' o, r_val (m w) = Ok a -> w' = r_world (m w) -> R w w' o ->
                  k a w' = k' a w') ->
  bind m k w = bind m k' w.
Proof.
  intros Hm H. unfold bind. cbv zeta.
  destruct (r_val (m w)) as [x|e] eqn:E; [|reflexivity].
  rewrite (H x _ _ eq_refl eq_refl (Hm w)). reflexivity.
Qed.

Lemma sample_and_deposit_by_sample cs a tm file st (w : World) :
  segments_agree (cell w) a -> length (imem_buf st) = totnsegs (cell w) ->
  sample_and_deposit cs (scaled_area a) tm file st w =
  deposit_current_sample cs a tm file (tstep st) w.
Proof.
  intros Hs Hb. unfold sample_and_deposit, deposit_current_sample.
  rewrite !bind_get_cell, !bind_get_nrn.
  rewrite (sample_imem_is_current_sample _ _ _ _ Hs Hb), bind_lift_ok.
  reflexivity.
Qed.

Lemma deposit_current_sample_val cs a tm file k (w : World) v :
  r_val (deposit_current_sample cs a tm file k w) = Ok v ->
  v = current_sample (nrn w) (cell w) a.
Proof.
  unfold deposit_current_sample. rewrite bind_get_cell, bind_get_nrn.
  intros E. apply bind_inv in E as [? [_ E]]. apply bind_inv in E as [? [_ E]].
  cbn in E. congruence.
Qed.

Lemma bind_cong_l {A B} (m m' : M A) (k : A -> M B) (w : World) :
  m w = m' w -> bind m k w = bind m' k w.
Proof. intros E. unfold bind. rewrite E. reflexivity. Qed.

Lemma kept_fadvance : keeps cell_and_store_kept (fadvance : M _).
Proof. apply (keeps_weaken engine_only); [apply engine_only_kept | auto with keep]. Qed.
Lemma kept_report_progress k i t :
  keeps cell_and_store_kept (report_progress k i t : M _).
Proof. apply (keeps_weaken engine_only); [apply engine_only_kept | auto with keep]. Qed.
Lemma kept_sinks {A} (m : M A) : keeps sinks_only m -> keeps cell_and_store_kept m.
Proof. apply keeps_weaken, sinks_only_kept. Qed.
Lemma kept_set_nrn n : keeps cell_and_store_kept (set_nrn n : M _).
Proof. intros w. split; reflexivity. Qed.
#[local] Hint Resolve kept_fadvance kept_report_progress kept_set_nrn : keep.

(** The first stage of an iteration: the sample when the time is not
    negative, nothing otherwise. *)
Lemma sample_stage_buffer cs a tm file (b : bool) st (w : World) st1 :
  segments_agree (cell w) a -> length (imem_buf st) = totnsegs (cell w) ->
  r_val ((if b
          then imem' <- deposit_current_sample cs a tm file (tstep st) ;;
               ret (mkLoopSt (S (tstep st)) (counter_ st) (ti st) imem')
          else ret st) w) = Ok st1 ->
  length (imem_buf st1) = totnsegs (cell w).
Proof.
  intros Hs Hb. destruct b.
  - intros E. apply bind_inv in E as [v [Ev E]]. cbn in E.
    apply deposit_current_sample_val in Ev. injection E as <-. subst v.
    cbn. apply length_current_sample, Hs.
  - cbn. intros E. injection E as <-. exact Hb.
Qed.

Lemma sample_stage_keeps cs a tm file (b : bool) st :
  keeps sinks_only
    ((if b
      then imem' <- deposit_current_sample cs a tm file (tstep st) ;;
           ret (mkLoopSt (S (tstep st)) (counter_ st) (ti st) imem')
      else ret st) : M _).
Proof. destruct b; keeps_auto. Qed.

Lemma time_loop_is_by_sample fuel cs a tm file interval :
  forall st (w : World),
    segments_agree (cell w) a -> length (imem_buf st) = totnsegs (cell w) ->
    time_loop fuel cs (scaled_area a) tm file interval st w =
    time_loop_by_sample fuel cs a tm file interval st w.
Proof.
  induction fuel as [|fuel IH]; intros st w Hs Hb;
    cbn [time_loop time_loop_by_sample];
    rewrite !bind_get_cell, !bind_get_nrn; [reflexivity|].
  destruct (Qltb (h_t (nrn w)) (tstopms (cell w))); [|reflexivity].
  etransitivity.
  { apply bind_cong_l.
    instantiate (1 := if Qleb 0 (h_t (nrn w))
                      then imem' <- deposit_current_sample cs a tm file (tstep st) ;;
                           ret (mkLoopSt (S (tstep st)) (counter_ st) (ti st) imem')
                      else ret st).
    destruct (Qleb 0 (h_t (nrn w))); [|reflexivity].
    apply bind_cong_l, sample_and_deposit_by_sample; assumption. }
  apply (bind_ext_keeps sinks_only); [apply sample_stage_keeps|].
  intros st1 w1 o1 E1 -> (Ec1 & _).
  pose proof (sample_stage_buffer _ _ _ _ _ _ _ _ Hs Hb E1) as Hb1.
  apply (bind_ext_keeps cell_and_store_kept); [auto with keep|].
  intros [] w2 o2 _ _ (Ec2 & _).
  apply (bind_ext_keeps cell_and_store_kept); [auto with keep|].
  intros t w3 o3 _ _ (Ec3 & _).
  apply IH.
  - rewrite Ec3, Ec2, Ec1. exact Hs.
  - cbn. rewrite Ec3, Ec2, Ec1. exact Hb1.
Qed.

Lemma kept_time_loop_by_sample fuel cs a tm file interval :
  forall st, keeps cell_and_store_kept
               (time_loop_by_sample fuel cs a tm file interval st : M _).
Proof.
  induction fuel as [|fuel IH]; intros st; cbn [time_loop_by_sample];
    keeps_auto; apply kept_sinks; keeps_auto.
Qed.

Lemma time_loop_by_sample_buffer fuel cs a tm file interval :
  forall st (w : World) st',
    segments_agree (cell w) a -> length (imem_buf st) = totnsegs (cell w) ->
    r_val (time_loop_by_sample fuel cs a tm file interval st w) = Ok st' ->
    length (imem_buf st') = totnsegs (cell w).
Proof.
  induction fuel as [|fuel IH]; intros st w st' Hs Hb;
    cbn [time_loop_by_sample]; rewrite !bind_get_cell, !bind_get_nrn.
  - destruct (Qltb _ _); cbn; [discriminate|]. intros E. injection E as <-.
    exact Hb.
  - destruct (Qltb _ _); [|cbn; intros E; injection E as <-; exact Hb].
    intros E. apply bind_inv in E as [st1 [E1 E]].
    pose proof (sample_stage_buffer _ _ _ _ _ _ _ _ Hs Hb E1) as Hb1.
    destruct (sample_stage_keeps cs a tm file (Qleb 0 (h_t (nrn w))) st w)
      as (Ec1 & _).
    set (w1 := r_world _) in *.
    apply bind_inv in E as [[] [_ E]].
    destruct (kept_fadvance w1) as (Ec2 & _).
    set (w2 := r_world (fadvance w1)) in *.
    apply bind_inv in E as [t [_ E]].
    destruct (kept_report_progress (S (counter_ st1)) interval (ti st1) w2)
      as (Ec3 & _).
    set (w3 := r_world (report_progress _ _ _ w2)) in *.
    apply IH in E.
    + rewrite E. congruence.
    + rewrite Ec3, Ec2, Ec1. exact Hs.
    + cbn. rewrite Ec3, Ec2, Ec1. exact Hb1.
Qed.

(** ** The whole run *)

Lemma sinks_only_alloc_file (c : Cell) fn cs :
  forall i, keeps sinks_only (alloc_file c fn i cs : M _).
Proof. induction cs as [|m cs IH]; intros i; cbn; keeps_auto. Qed.
#[local] Hint Resolve sinks_only_alloc_file : keep.

Lemma sinks_only_open_file file_name cs :
  keeps sinks_only (open_file file_name cs : M _).
Proof. unfold open_file. keeps_auto. Qed.

Lemma sinks_only_sinks_stage (c : Cell) tm cs :
  keeps sinks_only
    (when tm (b <- lift (alloc_memory c cs) ;; set_bufs b) : M _).
Proof. keeps_auto. Qed.

Lemma sinks_only_file_stage (tf : bool) file_name cs :
  keeps sinks_only
    ((if tf then fn <- open_file file_name cs ;; ret (Some fn)
      else ret None) : M _).
Proof. destruct tf; keeps_auto. apply sinks_only_open_file. Qed.

Lemma setup_and_loop_is_by_sample fuel vdt atol tm tf file_name cs a (w : World) :
  segments_agree (cell w) a ->
  setup_and_loop fuel vdt atol tm tf file_name cs w =
  setup_and_loop_by_sample fuel vdt atol tm tf file_name cs a w.
Proof.
  intros Hs. unfold setup_and_loop, setup_and_loop_by_sample.
  rewrite !bind_get_cell, !bind_get_nrn, !bind_set_nrn, !bind_get_nrn.
  set (w1 := with_nrn w _).
  assert (Ec1 : cell w1 = cell w) by reflexivity.
  apply (bind_ext_keeps cell_and_store_kept); [auto with keep|].
  intros interval w2 o2 _ _ (Ec2 & _).
  apply (bind_ext_keeps sinks_only); [apply sinks_only_sinks_stage|].
  intros [] w3 o3 _ _ (Ec3 & _).
  apply (bind_ext_keeps sinks_only); [apply sinks_only_file_stage|].
  intros file w4 o4 _ _ (Ec4 & _).
  destruct Hs as (Ha & Hl & Hi). rewrite Ha, bind_ret_l.
  apply bind_cong_l, time_loop_is_by_sample.
  - rewrite Ec4, Ec3, Ec2, Ec1. repeat split; assumption.
  - cbn. unfold np_empty1. rewrite length_replicate. congruence.
Qed.

Lemma kept_set_bufs b : keeps cell_and_store_kept (set_bufs b : M _).
Proof. intros w. split; reflexivity. Qed.
Lemma kept_set_fs f : keeps cell_and_store_kept (set_fs f : M _).
Proof. intros w. split; reflexivity. Qed.
Lemma kept_open_file file_name cs :
  keeps cell_and_store_kept (open_file file_name cs : M _).
Proof. apply kept_sinks, sinks_only_open_file. Qed.
#[local] Hint Resolve kept_set_bufs kept_set_fs kept_open_file
  kept_time_loop_by_sample : keep.

Lemma kept_setup_and_loop_by_sample fuel vdt atol tm tf file_name cs a :
  keeps cell_and_store_kept
    (setup_and_loop_by_sample fuel vdt atol tm tf file_name cs a : M _).
Proof. unfold setup_and_loop_by_sample. keeps_auto. Qed.

Lemma bind_inv_keeps {A B} (R : World -> World -> list Msg -> Prop)
    (m : M A) (k : A -> M B) (w : World) b :
  keeps R m ->
  r_val (bind m k w) = Ok b ->
  exists a w' o, r_val (m w) = Ok a /\ R w w' o /\ r_val (k a w') = Ok b.
Proof.
  intros Hm E. apply bind_inv in E as [a [Ea E]].
  exists a, (r_world (m w)), (r_out (m w)). split; [exact Ea|].
  split; [apply Hm | exact E].
Qed.

Lemma setup_and_loop_by_sample_result fuel vdt atol tm tf file_name cs a
    (w : World) x :
  segments_agree (cell w) a ->
  r_val (setup_and_loop_by_sample fuel vdt atol tm tf file_name cs a w) = Ok x ->
  l_area x = scaled_area a /\
  length (imem_buf (l_st x)) = totnsegs (cell w).
Proof.
  intros Hs. unfold setup_and_loop_by_sample.
  rewrite !bind_get_cell, !bind_get_nrn, !bind_set_nrn, !bind_get_nrn.
  set (w1 := with_nrn w _).
  assert (Ec1 : cell w1 = cell w) by reflexivity.
  intros E.
  apply (bind_inv_keeps cell_and_store_kept) in E
    as (interval & w2 & o2 & _ & (Ec2 & _) & E); [|auto with keep].
  apply (bind_inv_keeps sinks_only) in E
    as ([] & w3 & o3 & _ & (Ec3 & _) & E); [|apply sinks_only_sinks_stage].
  apply (bind_inv_keeps sinks_only) in E
    as (file & w4 & o4 & _ & (Ec4 & _) & E); [|apply sinks_only_file_stage].
  apply bind_inv in E as [st [Est E]].
  cbn in E. injection E as <-. cbn [l_area l_st]. split; [reflexivity|].
  apply time_loop_by_sample_buffer in Est.
  - rewrite Est. congruence.
  - rewrite Ec4, Ec3, Ec2, Ec1. exact Hs.
  - cbn. unfold np_empty1. rewrite length_replicate. congruence.
Qed.

Lemma last_sample_is_by_sample tm cs a x (w : World) :
  segments_agree (cell w) a ->
  l_area x = scaled_area a ->
  length (imem_buf (l_st x)) = totnsegs (cell w) ->
  last_sample tm cs x w = last_sample_by_sample tm cs a x w.
Proof.
  intros Hs Ha Hb. unfold last_sample, last_sample_by_sample, try_pass.
  rewrite Ha.
  rewrite (bind_cong_l _ _ _ _ (sample_and_deposit_by_sample cs a tm (l_file x)
                                  (l_st x) w Hs Hb)).
  reflexivity.
Qed.

(** X9.  For a cell that has one area per segment ([totnsegs] of them,
    as many as its sections have segments), the run is the run in which
    the vector deposited at every retained step of the loop, and after
    the loop, is the membrane current density of each segment, read in
    the order [for sec in cell.allseclist: for seg in sec], times the
    segment's area times 1e-2. *)
Theorem deposited_current_is_density_times_scaled_area
    fuel vdt atol tm p a (w : World) :
  segments_agree (cell w) a ->
  simulate fuel vdt atol tm p w = simulate_by_sample fuel vdt atol tm p a w.
Proof.
  intros Hs. unfold simulate, simulate_by_sample.
  rewrite (bind_cong_l _ _ _ _
             (setup_and_loop_is_by_sample fuel vdt atol tm (p_to_file p)
                (p_file_name p) (p_dotprodcoeffs p) a w Hs)).
  apply (bind_ext_keeps cell_and_store_kept);
    [apply kept_setup_and_loop_by_sample|].
  intros x w1 o1 Ex _ (Ec1 & _).
  destruct (setup_and_loop_by_sample_result _ _ _ _ _ _ _ _ _ _ Hs Ex)
    as (Ha & Hb).
  apply bind_cong_l, last_sample_is_by_sample.
  - rewrite Ec1. exact Hs.
  - exact Ha.
  - rewrite Ec1. exact Hb.
Qed.

(** ** Steps before time zero *)

Lemma bind_fadvance {B} (k : unit -> M B) (w : World) :
  bind fadvance k w =
  k tt (with_nrn w (nrn_set_t_dyn (nrn w) (e_fadvance (nrn w)))).
Proof.
  unfold fadvance. unfold bind at 1. rewrite bind_get_nrn.
  cbn [set_nrn r_val r_world r_out app]. apply res_eta.
Qed.

Lemma time_loop_before_zero fuel cs a tm file interval :
  forall st (w : World),
    (tstopms (cell w) <= 0)%Q ->
    let r := time_loop fuel cs a tm file interval st w in
    engine_only w (r_world r) (r_out r) /\
    forall st', r_val r = Ok st' ->
                tstep st' = tstep st /\ imem_buf st' = imem_buf st.
Proof.
  induction fuel as [|fuel IH]; intros st w Hstop; cbv zeta;
    cbn [time_loop]; rewrite !bind_get_cell, !bind_get_nrn.
  - destruct (Qltb _ _); (split; [apply comp_refl|]); cbn;
      [discriminate | intros st' E; injection E as <-; split; reflexivity].
  - destruct (Qltb (h_t (nrn w)) (tstopms (cell w))) eqn:Hlt;
      [|split; [apply comp_refl | cbn; intros st' E; injection E as <-;
                                  split; reflexivity]].
    apply Qltb_lt in Hlt.
    assert (Hneg : Qleb 0 (h_t (nrn w)) = false).
    { unfold Qleb. destruct (Qle_bool 0 (h_t (nrn w))) eqn:E; [|reflexivity].
      apply Qle_bool_iff in E. exfalso.
      apply (Qlt_irrefl 0). eapply Qle_lt_trans; [exact E|].
      eapply Qlt_le_trans; [exact Hlt | exact Hstop]. }
    rewrite Hneg, bind_ret_l, bind_fadvance.
    set (w1 := with_nrn w _).
    destruct (report_progress_world (S (counter_ st)) interval (ti st) w1)
      as [Ew [t Ev]].
    rewrite (bind_ok _ _ _ _ Ev). cbn [r_val r_world r_out]. rewrite Ew.
    specialize (IH (mkLoopSt (tstep st) (S (counter_ st)) t (imem_buf st)) w1
                  Hstop).
    cbv zeta in IH. destruct IH as [IHw IHv]. cbn [tstep imem_buf] in IHv.
    split; [|exact IHv].
    assert (H1 : engine_only w w1 []) by (unfold engine_only; cbn; repeat split).
    pose proof (engine_only_report_progress (S (counter_ st)) interval
                  (ti st) w1) as H2.
    rewrite Ew in H2.
    rewrite <- (app_nil_l (r_out (report_progress _ _ _ w1) ++ _)).
    eapply comp_trans; [exact H1|]. eapply comp_trans; [exact H2 | exact IHw].
Qed.


End SampleProperties.

(** * The statements at the concrete instance *)

Import Demo.
Local Open Scope Q_scope.

(** C1.  The run with electrodes ignores [variable_dt]: with
    [variable_dt = True] and a step of 1/2 ms the integrator ends up
    inactive (where [_run_simulation] activates it on the same input), and
    with [variable_dt = False] and a step of 1e-9 ms it ends up active with
    the caller's tolerance. *)
Theorem C1_variable_dt_is_ignored :
  let r := _run_simulation_with_electrode 10 true (Some (ElOne 0%nat)) true
             (1 # 5000) true false None None (world0 cell_a (heap_one false)) in
  let r0 := _run_simulation 10 true (1 # 5000) (world0 cell_a (heap_one false)) in
  let r1 := _run_simulation_with_electrode 10 true (Some (ElOne 0%nat)) false
              (1 # 5000) true false None None
              (world0 cell_tiny_dt (heap_one false)) in
  (r_val r = Ok tt /\ cvode_active (nrn (r_world r)) = false) /\
  (r_val r0 = Ok tt /\ cvode_active (nrn (r_world r0)) = true /\
   cvode_atol (nrn (r_world r0)) = (1 # 5000)) /\
  (r_val r1 = Ok tt /\ cvode_active (nrn (r_world r1)) = true /\
   cvode_atol (nrn (r_world r1)) = (1 # 5000)).
Proof. vm_compute. repeat split; reflexivity. Qed.

(** C2 fails as stated: a cell whose first section has no 3-D points and
    one segment is processed without any exception. *)
Lemma C2_counterexample :
  ~ (forall c : @Cell Q,
       (exists sec, In sec (allseclist c) /\ n3d sec = 0%nat /\ nseg sec <> 0%nat) ->
       exists e, _collect_geometry_neuron c = Raise e).
Proof.
  intros H.
  destruct (H (cell0 [untraced; soma] 2 (1 # 2) 0 1)) as [e He].
  - exists untraced. repeat split; [left; reflexivity | discriminate].
  - vm_compute in He. discriminate.
Qed.

Lemma C2_witness :
  geometry_result (_collect_geometry_neuron (cell0 [untraced; soma] 2 (1 # 2) 0 1)) =
  geometry_result
    (_collect_geometry_neuron
       (cell_with_sections (cell0 [untraced; soma] 2 (1 # 2) 0 1) ([] ++ [soma]))).
Proof.
  apply (C2_untraced_section_is_skipped
           (cell0 [untraced; soma] 2 (1 # 2) 0 1) [] untraced [soma]).
  - reflexivity.
  - reflexivity.
  - discriminate.
Defined.

(** C3.  Electrode 0 carries an [LFP] and a [CellLFP], electrode 1 carries
    neither; after the probe phase electrode 1 has both, and they are
    electrode 0's objects. *)
Theorem C3_probe_hands_results_to_next_electrode :
  let w := world0 cell_a heap_two in
  let r := prepare true (Some (ElList [0%nat; 1%nat])) false None None w in
  (exists p, r_val r = Ok p) /\
  attr_of LFP (heap w) 1 = None /\ attr_of CellLFP (heap w) 1 = None /\
  attr_of LFP (heap (r_world r)) 1 = Some 5%nat /\
  attr_of CellLFP (heap (r_world r)) 1 = Some 9%nat /\
  attr_of LFP (heap (r_world r)) 0 = Some 5%nat /\
  attr_of CellLFP (heap (r_world r)) 0 = Some 9%nat.
Proof. vm_compute. repeat split; try reflexivity. eexists; reflexivity. Qed.

(** C4.  One caller-supplied matrix and one electrode that keeps per-cell
    contributions: the simulation completes, then the finalization raises
    IndexError on [electrodes[j]]; the electrode has its [LFP] but no
    [CellLFP] and no [electrodecoeff]. *)
Theorem C4_per_cell_merge_fails_with_dotprodcoeffs :
  let w := world0 cell_a (heap_one true) in
  let r := _run_simulation_with_electrode 10 true (Some (ElOne 0%nat)) false
             (1 # 1000) true false None (Some (DotOne ones)) w in
  r_val r = Raise IndexError /\
  h_t (nrn (r_world r)) = 1 /\
  (exists l, attr_of LFP (heap (r_world r)) 0 = Some l) /\
  attr_of CellLFP (heap (r_world r)) 0 = None /\
  (exists el, els (heap (r_world r)) !! 0%nat = Some el /\ electrodecoeff el = None).
Proof. vm_compute. repeat split; try reflexivity; eexists; try split; reflexivity. Qed.

Lemma C10_witness :
  let w := world0 cell_a heap_two in
  (exists p, r_val (prepare true (Some (ElList [0%nat; 1%nat])) false None None w) = Ok p) /\
  tvec (cell (r_world (prepare true (Some (ElList [0%nat; 1%nat])) false None None w)))
    = tvec (cell w) /\
  imem (cell (r_world (prepare true (Some (ElList [0%nat; 1%nat])) false None None w)))
    = imem (cell w).
Proof.
  cbv zeta.
  assert (E : exists p, r_val (prepare true (Some (ElList [0%nat; 1%nat])) false
                                 None None (world0 cell_a heap_two)) = Ok p).
  { vm_compute. eexists; reflexivity. }
  split; [exact E|]. destruct E as [p Hp].
  exact (C10_probe_restores_tvec_and_imem _ _ _ _ _ _ _ Hp).
Defined.



Lemma geometry_is_laid_out_witness :
  geometry_result (_collect_geometry_neuron cell_a) =
  Ok (expected_geometry cell_a).
Proof.
  apply (geometry_is_laid_out_in_iteration_order cell_a).
  - repeat constructor; discriminate.
  - vm_compute. lia.
Defined.

Lemma geometry_never_truncates_witness :
  exists e,
    _collect_geometry_neuron (cell0 [traced; soma] 2 (1 # 2) 0 1) = Raise e /\
    geometry_exn e.
Proof.
  apply (geometry_never_truncates (cell0 [traced; soma] 2 (1 # 2) 0 1)).
  intros [_ Hfit]. vm_compute in Hfit. lia.
Defined.

Lemma step_engine_steps_by_dt : steps_by_dt step_engine.
Proof. intros n. cbn. apply Qred_correct. Qed.


Lemma run_simulation_zero_step_witness :
  _run_simulation 2 true (1 # 1000)
    (world0 (cell0 [traced; soma] 3 0 0 1) (heap_one false)) =
  mkRes (Raise ZeroDivisionError)
    (with_nrn (world0 (cell0 [traced; soma] 3 0 0 1) (heap_one false))
       (init_engine (cell0 [traced; soma] 3 0 0 1) true (1 # 1000) nrn0)) [].
Proof.
  apply (run_simulation_zero_step 2 true (1 # 1000)
           (world0 (cell0 [traced; soma] 3 0 0 1) (heap_one false))).
  reflexivity.
Defined.

Lemma deposited_current_witness :
  simulate 10 false (1 # 1000) true (mkPrepared false None 1 None [ones])
    (world0 cell_a (heap_one false)) =
  simulate_by_sample 10 false (1 # 1000) true
    (mkPrepared false None 1 None [ones]) [100; 200; 300]
    (world0 cell_a (heap_one false)).
Proof.
  apply (deposited_current_is_density_times_scaled_area 10 false (1 # 1000)
           true (mkPrepared false None 1 None [ones]) [100; 200; 300]
           (world0 cell_a (heap_one false))).
  repeat split.
Defined.

